(** * Verification of the compact-rate encoding of py-reserve-sdk

    Shallow embedding of [src/reserve_sdk/contract.py]: [get_compact_data],
    [build_compact_price], and the [ConversionRatesContract] methods
    [get_token_indices], [get_basic_rate], [build_price], [set_rates],
    [set_compact_data], [add_token], [set_token_control_info],
    [enable_token_trade] and [add_new_token].

    Rates and base rates are Python numbers; [rate/base] is Python true
    division, which yields a float.  They are modelled as IEEE 754 binary64
    values ([spec_float] at precision 53, maximal exponent 1024), whose
    arithmetic ([SFdiv], [SFsub], [SFmul]) rounds to nearest-even exactly as
    CPython's float operations do.  Integer rates below 2^53 are represented
    exactly and behave identically. *)

From Stdlib Require Import ZArith List Bool Lia Permutation.
From Stdlib Require Import Floats.SpecFloat.
Import ListNotations.
Open Scope Z_scope.

(** ** Python floats *)
Module PyFloat.

Definition prec : Z := 53.
Definition emax : Z := 1024.

Definition float : Type := spec_float.

(** [float(z)] for a Python int [z] (round to nearest). *)
Definition of_Z (z : Z) : float := binary_normalize prec emax z 0 false.

(** A decimal literal [m * 10^-k], as the Python parser reads it: the exact
    decimal value rounded to nearest.  For [m] and [10^k] exactly
    representable this is the correctly rounded quotient [m / 10^k]. *)
Definition of_decimal (m : Z) (k : nat) : float :=
  SFdiv prec emax (of_Z m) (of_Z (10 ^ Z.of_nat k)).

Definition div (x y : float) : float := SFdiv prec emax x y.
Definition sub (x y : float) : float := SFsub prec emax x y.
Definition mul (x y : float) : float := SFmul prec emax x y.

(** [x == y] and [x != y] on floats (IEEE comparison: NaN is unequal to
    everything, [0.0 == -0.0]). *)
Definition eqb (x y : float) : bool := SFeqb x y.

(** [int(x)] for a float [x]: truncation toward zero; [int(nan)] raises
    [ValueError] and [int(inf)] raises [OverflowError], modelled by [None]. *)
Definition to_int (x : float) : option Z :=
  match x with
  | S754_zero _ => Some 0
  | S754_infinity _ => None
  | S754_nan => None
  | S754_finite s m e =>
      let a := if (0 <=? e) then Z.pos m * 2 ^ e else Z.pos m / 2 ^ (- e) in
      Some (if s then - a else a)
  end.

End PyFloat.

Import PyFloat.

(** ** [CompactData] and [get_compact_data] *)

Record CompactData := mkCompactData { base : float; compact : Z }.

(** The bps delta [int((rate/base - 1) * 1000)] of line 31; [None] when
    [int()] raises. *)
Definition delta_bps (rate base : float) : option Z :=
  to_int (mul (sub (div rate base) (of_Z 1)) (of_Z 1000)).

(** [get_compact_data(rate, base)]; [None] when the computation raises. *)
Definition get_compact_data (rate base : float) : option CompactData :=
  if eqb base (of_Z 0) then Some (mkCompactData rate 0)
  else
    match delta_bps rate base with
    | None => None
    | Some compact =>
        if (compact <=? -128) || (127 <=? compact) then
          Some (mkCompactData rate 0)
        else
          let compact := if compact <? 0 then compact + 256 else compact in
          Some (mkCompactData base compact)
    end.

(** Decoding of a compact byte back to a signed delta. *)
Definition decode_byte (b : Z) : Z := if 127 <? b then b - 256 else b.

(** ** Token positions and per-token price data *)

(** Token addresses are modelled as integers. *)
Definition address : Type := Z.

(** [TokenIndex = namedtuple('TokenIndex', ('array_idx', 'field_idx'))] *)
Record TokenIndex := mkTokenIndex { array_idx : Z; field_idx : Z }.

(** The dict returned by [build_price]. *)
Record Price := mkPrice {
  token : address;
  base_buy : float;
  base_sell : float;
  compact_buy : Z;
  compact_sell : Z;
  base_changed : bool
}.

(** ** Python dicts and lists *)

(** A Python dict, in insertion order. *)
Definition dict (K V : Type) : Type := list (K * V).

Fixpoint dict_get {V} (d : dict Z V) (k : Z) : option V :=
  match d with
  | [] => None
  | (k', v) :: d' => if k' =? k then Some v else dict_get d' k
  end.

Definition dict_mem {V} (d : dict Z V) (k : Z) : bool :=
  match dict_get d k with Some _ => true | None => false end.

(** [d[k] = v]: an existing key keeps its position, a new key goes last. *)
Fixpoint dict_set {V} (d : dict Z V) (k : Z) (v : V) : dict Z V :=
  match d with
  | [] => [(k, v)]
  | (k', v') :: d' => if k' =? k then (k, v) :: d' else (k', v') :: dict_set d' k v
  end.

Fixpoint replace_nth (n : nat) (v : Z) (l : list Z) : list Z :=
  match l, n with
  | [], _ => []
  | _ :: r, O => v :: r
  | x :: r, S n => x :: replace_nth n v r
  end.

(** [l[i] = v] on a Python list: negative indices count from the end, any
    other index out of range raises [IndexError] ([None]). *)
Definition set_item (l : list Z) (i v : Z) : option (list Z) :=
  let n := Z.of_nat (length l) in
  let j := if i <? 0 then i + n else i in
  if (0 <=? j) && (j <? n) then Some (replace_nth (Z.to_nat j) v l) else None.

(** [[0] * 14] *)
Definition zeros14 : list Z := repeat 0 14.

(** ** [build_compact_price] *)

Section BuildCompactPrice.

(** [hexlify] (from [utils], not part of the modelled code) is left
    abstract: every statement holds for any encoding of the arrays. *)
Context {Hex : Type} (hexlify : list Z -> Hex).

(** The first loop of [build_compact_price]; [token_indices[p['token']]]
    raises [KeyError] ([None]) for an unknown token. *)
Fixpoint group_prices (token_indices : dict Z TokenIndex)
    (result : dict Z (list Z * list Z)) (prices : list Price)
    : option (dict Z (list Z * list Z)) :=
  match prices with
  | [] => Some result
  | p :: ps =>
      match dict_get token_indices (token p) with
      | None => None
      | Some ti =>
          let array_idx := array_idx ti in
          let field_idx := field_idx ti in
          let result :=
            if dict_mem result array_idx then result
            else dict_set result array_idx (zeros14, zeros14) in
          match dict_get result array_idx with
          | None => None
          | Some (buy, sell) =>
              match set_item buy field_idx (compact_buy p) with
              | None => None
              | Some buy =>
                  match set_item sell field_idx (compact_sell p) with
                  | None => None
                  | Some sell =>
                      group_prices token_indices
                        (dict_set result array_idx (buy, sell)) ps
                  end
              end
          end
      end
  end.

Definition build_compact_price (prices : list Price)
    (token_indices : dict Z TokenIndex) : option (list Hex * list Hex * list Z) :=
  match group_prices token_indices [] prices with
  | None => None
  | Some result =>
      Some (map (fun kv => hexlify (fst (snd kv))) result,
            map (fun kv => hexlify (snd (snd kv))) result,
            map fst result)
  end.

(** The batch as the spec describes it: the distinct array indices in order
    of first occurrence and, for each, the 14-slot array starting at 0 with
    every matching token's value written at its field index. *)
Definition first_occurrences (l : list Z) : list Z :=
  fold_left (fun seen k => if existsb (Z.eqb k) seen then seen else seen ++ [k])
    l [].

Definition index_of (token_indices : dict Z TokenIndex) (t : address) : TokenIndex :=
  match dict_get token_indices t with Some ti => ti | None => mkTokenIndex 0 0 end.

Definition spec_array (sel : Price -> Z) (token_indices : dict Z TokenIndex)
    (prices : list Price) (k : Z) : list Z :=
  fold_left (fun a p =>
      let ti := index_of token_indices (token p) in
      if array_idx ti =? k then replace_nth (Z.to_nat (field_idx ti)) (sel p) a
      else a)
    prices zeros14.

Definition spec_indices (token_indices : dict Z TokenIndex) (prices : list Price)
    : list Z :=
  first_occurrences (map (fun p => array_idx (index_of token_indices (token p))) prices).

Definition compact_batch_spec (prices : list Price)
    (token_indices : dict Z TokenIndex) : list Hex * list Hex * list Z :=
  let ks := spec_indices token_indices prices in
  (map (fun k => hexlify (spec_array compact_buy token_indices prices k)) ks,
   map (fun k => hexlify (spec_array compact_sell token_indices prices k)) ks,
   ks).

End BuildCompactPrice.

(** The scenario of the spec: two tokens at array index 0, field
    indices 3 and 5. *)
Definition example_prices : list Price :=
  [mkPrice 1 (of_Z 100) (of_Z 100) 50 243 false;
   mkPrice 2 (of_Z 100) (of_Z 100) 7 249 false].

Definition example_token_indices : dict Z TokenIndex :=
  [(1, mkTokenIndex 0 3); (2, mkTokenIndex 0 5)].

(** Whether [get_compact_data(rate, base)] takes one of its reset branches
    (line 28 or line 32). *)
Definition takes_reset (rate b : float) : bool :=
  eqb b (of_Z 0) ||
  match delta_bps rate b with
  | Some d => (d <=? -128) || (127 <=? d)
  | None => false
  end.

(** ** [ConversionRatesContract]: chain, events and the effect monad *)

Section Contract.

Context {Hex : Type}.

(** The two transactions [set_rates] can submit. *)
Inductive Tx :=
| setBaseRate (tokens : list address) (base_buy base_sell : list float)
    (compact_buy compact_sell : list Hex) (block : Z) (indices : list Z)
| setCompactData (compact_buy compact_sell : list Hex) (block : Z)
    (indices : list Z).

(** The chain as seen through web3: each read may raise ([None]);
    [getCompactData] yields the array and field index of its four-tuple,
    [call_contract_func] yields the transaction hash or raises. *)
Record Chain := mkChain {
  getCompactData : address -> option (Z * Z);
  getBasicRate : address -> bool -> option float;
  blockNumber : option Z;
  call_contract_func : Tx -> option Z
}.

(** Interactions with the chain, in the order they are made. *)
Inductive Event :=
| ReadCompactData (t : address)
| ReadBasicRate (t : address) (buy : bool)
| ReadBlockNumber
| Submit (tx : Tx).

(** The client's state: [self.token_indices] and the interactions so far. *)
Record St := mkSt { token_indices_cache : dict Z TokenIndex; trace : list Event }.

(** State and exceptions: a raised exception ([None]) keeps the effects
    already performed. *)
Definition M (A : Type) : Type := St -> option A * St.

Definition ret {A} (a : A) : M A := fun s => (Some a, s).

Definition bind {A B} (m : M A) (f : A -> M B) : M B :=
  fun s => match m s with
           | (Some a, s') => f a s'
           | (None, s') => (None, s')
           end.

Definition raise {A} : M A := fun s => (None, s).

Definition lift {A} (o : option A) : M A :=
  match o with Some a => ret a | None => raise end.

Definition emit (e : Event) : M unit :=
  fun s => (Some tt, mkSt (token_indices_cache s) (trace s ++ [e])).

Definition get_cache : M (dict Z TokenIndex) :=
  fun s => (Some (token_indices_cache s), s).

Definition put_cache (c : dict Z TokenIndex) : M unit :=
  fun s => (Some tt, mkSt c (trace s)).

End Contract.

Arguments Tx : clear implicits.
Arguments Chain : clear implicits.
Arguments Event : clear implicits.
Arguments St : clear implicits.
Arguments M : clear implicits.

Notation "x <- m ;; k" := (bind m (fun x => k))
  (at level 61, m at next level, right associativity).
Notation "m ;; k" := (bind m (fun _ => k))
  (at level 61, right associativity).

Section ConversionRates.

Context {Hex : Type} (hexlify : list Z -> Hex) (chain : Chain Hex).

(** [get_token_indices(token)]: cached, one chain read per unseen token. *)
Definition get_token_indices (t : address) : M Hex TokenIndex :=
  c <- get_cache ;;
  match dict_get c t with
  | Some ti => ret ti
  | None =>
      emit (ReadCompactData t) ;;
      r <- lift (getCompactData chain t) ;;
      let ti := mkTokenIndex (fst r) (snd r) in
      put_cache (dict_set c t ti) ;;
      ret ti
  end.

(** [get_basic_rate(token_address, buy)] *)
Definition get_basic_rate (t : address) (buy : bool) : M Hex float :=
  emit (ReadBasicRate t buy) ;;
  lift (getBasicRate chain t buy).

(** The dict returned by [build_price] from the two compactions and the two
    recorded bases. *)
Definition price_update (t : address) (cb cs : CompactData) (bb bs : float) : Price :=
  mkPrice t (base cb) (base cs) (compact cb) (compact cs)
    (negb (eqb (base cb) bb) || negb (eqb (base cs) bs)).

(** [build_price(token, buy, sell)] *)
Definition build_price (t : address) (buy sell : float) : M Hex Price :=
  bb <- get_basic_rate t true ;;
  cb <- lift (get_compact_data buy bb) ;;
  bs <- get_basic_rate t false ;;
  cs <- lift (get_compact_data sell bs) ;;
  ret (price_update t cb cs bb bs).

(** [zip(token_addresses, buy_rates, sell_rates)]: stops at the shortest. *)
Fixpoint zip3 (ts : list address) (bs ss : list float) : list (address * float * float) :=
  match ts, bs, ss with
  | t :: ts, b :: bs, s :: ss => (t, b, s) :: zip3 ts bs ss
  | _, _, _ => []
  end.

(** [list(self.executor.map(f, xs))]: every task is submitted to the pool
    (the model runs them one after the other), then the results are
    collected in order and the first exception, if any, is raised. *)
Fixpoint run_all {A B} (f : A -> M Hex B) (xs : list A) : St Hex -> list (option B) * St Hex :=
  match xs with
  | [] => fun s => ([], s)
  | x :: xs => fun s =>
      let (r, s1) := f x s in
      let (rs, s2) := run_all f xs s1 in
      (r :: rs, s2)
  end.

Fixpoint all_some {B} (rs : list (option B)) : option (list B) :=
  match rs with
  | [] => Some []
  | None :: _ => None
  | Some b :: rs => match all_some rs with Some l => Some (b :: l) | None => None end
  end.

Definition executor_map {A B} (f : A -> M Hex B) (xs : list A) : M Hex (list B) :=
  fun s => let (rs, s') := run_all f xs s in (all_some rs, s').

(** The dict comprehension [{token: self.get_token_indices(token) for token
    in token_addresses}]. *)
Fixpoint index_tokens (ts : list address) (d : dict Z TokenIndex) : M Hex (dict Z TokenIndex) :=
  match ts with
  | [] => ret d
  | t :: ts => ti <- get_token_indices t ;; index_tokens ts (dict_set d t ti)
  end.

Definition read_block_number : M Hex Z :=
  emit ReadBlockNumber ;; lift (blockNumber chain).

Definition submit (tx : Tx Hex) : M Hex Z :=
  emit (Submit tx) ;; lift (call_contract_func chain tx).

(** [set_rates(token_addresses, buy_rates, sell_rates)] *)
Definition set_rates (token_addresses : list address) (buy_rates sell_rates : list float)
    : M Hex Z :=
  token_indices <- index_tokens token_addresses [] ;;
  prices <- executor_map (fun p => let '(t, b, s) := p in build_price t b s)
              (zip3 token_addresses buy_rates sell_rates) ;;
  let changed := filter base_changed prices in
  let tokens := map token changed in
  let base_buys := map base_buy changed in
  let base_sells := map base_sell changed in
  batch <- lift (build_compact_price hexlify prices token_indices) ;;
  let '(compact_buys, compact_sells, indices) := batch in
  match tokens with
  | _ :: _ =>
      block <- read_block_number ;;
      submit (setBaseRate tokens base_buys base_sells compact_buys compact_sells
                block indices)
  | [] =>
      block <- read_block_number ;;
      submit (setCompactData compact_buys compact_sells block indices)
  end.

End ConversionRates.

(** A chain on which tokens 1 and 2 sit at array index 0, fields 3 and 5,
    with recorded buy and sell bases of 100; every other token is unknown. *)
Definition example_chain : Chain (list Z) :=
  mkChain
    (fun t => if t =? 1 then Some (0, 3) else if t =? 2 then Some (0, 5) else None)
    (fun t _ => if (t =? 1) || (t =? 2) then Some (of_Z 100) else None)
    (Some 7)
    (fun _ => Some 42).

(** The price [build_price] computes on [example_chain] for token 1 with a
    buy rate of 150 (reset) and a sell rate of 105 (fits). *)
Definition example_price : Price :=
  price_update 1 (mkCompactData (of_Z 150) 0) (mkCompactData (of_Z 100) 50)
    (of_Z 100) (of_Z 100).

(** ** Observations on traces *)

Section Observations.

Context {Hex : Type} (chain : Chain Hex).

Definition is_submit (e : Event Hex) : bool :=
  match e with Submit _ => true | _ => false end.

(** A token-index or base-rate read that raised. *)
Definition failed_read (e : Event Hex) : bool :=
  match e with
  | ReadCompactData t => match getCompactData chain t with None => true | Some _ => false end
  | ReadBasicRate t b => match getBasicRate chain t b with None => true | Some _ => false end
  | _ => false
  end.

(** [p] is what [build_price] returns for the triple [(t, b, s)]. *)
Definition priced (x : address * float * float) (p : Price) : Prop :=
  let '(t, b, s) := x in
  exists bb bs cb cs,
    getBasicRate chain t true = Some bb /\ getBasicRate chain t false = Some bs /\
    get_compact_data b bb = Some cb /\ get_compact_data s bs = Some cs /\
    p = price_update t cb cs bb bs.

End Observations.

(** A chain answering every read: token 2 at field 5, every other token at
    field 3 of array 0, recorded bases 100. *)
Definition example_total_chain : Chain (list Z) :=
  mkChain
    (fun t => Some (0, if t =? 2 then 5 else 3))
    (fun _ _ => Some (of_Z 100))
    (Some 7)
    (fun _ => Some 42).

(** ** Vocabulary of the proofs *)

(** The dict whose keys are [ks], in order, each mapped by [F]. *)
Definition entries {V} (F : Z -> V) (ks : list Z) : dict Z V := map (fun k => (k, F k)) ks.

Definition price_array_idx (token_indices : dict Z TokenIndex) (p : Price) : Z :=
  array_idx (index_of token_indices (token p)).

(** The [result] dict of [build_compact_price] after the prices [pre], as
    the spec describes it. *)
Definition batch_so_far (token_indices : dict Z TokenIndex) (pre : list Price)
    : dict Z (list Z * list Z) :=
  entries (fun k => (spec_array compact_buy token_indices pre k,
                     spec_array compact_sell token_indices pre k))
    (spec_indices token_indices pre).

(** The token of [p] has a known position with a field index in [0..13]. *)
Definition well_indexed (token_indices : dict Z TokenIndex) (p : Price) : Prop :=
  exists ti, dict_get token_indices (token p) = Some ti /\ 0 <= field_idx ti < 14.

Definition indices_in_range (d : dict Z TokenIndex) : Prop :=
  forall t ti, dict_get d t = Some ti -> 0 <= field_idx ti < 14.

(** A computation that only reads: it appends no submission to the trace,
    and when it returns, none of the reads it made raised. *)
Definition reads_only {Hex : Type} (chain : Chain Hex) {A} (m : M Hex A) : Prop :=
  forall s, let (r, s') := m s in
  exists evs, trace s' = trace s ++ evs /\
    Forall (fun e => is_submit e = false) evs /\
    (r <> None -> Forall (fun e => failed_read chain e = false) evs).

(** ** Further code of [contract.py] *)

(** A finite float: a zero or a finite non-zero value. *)
Definition is_finite (x : float) : bool :=
  match x with S754_zero _ | S754_finite _ _ _ => true | _ => false end.

(** [ConversionRatesContract.set_compact_data(buy, sell, indices)] *)
Definition set_compact_data {Hex : Type} (chain : Chain Hex) (buy sell : list Hex)
    (indices : list Z) : M Hex Z :=
  block <- read_block_number chain ;;
  submit chain (setCompactData buy sell block indices).

(** The pricing-contract transactions sent by [add_new_token]. *)
Inductive PricingTx :=
| addToken (token : address)
| setTokenControlInfo (token : address)
    (minimal_record_resolution max_per_block_imbalance max_total_imbalance : Z)
| enableTokenTrade (token : address).

(** A sequence of transactions, each sent through [call_contract_func] (the
    hash, or an exception [None]); the state is the list of transactions
    sent so far. *)
Definition Sender (A : Type) : Type := list PricingTx -> option A * list PricingTx.

Definition sender_bind {A B} (m : Sender A) (f : A -> Sender B) : Sender B :=
  fun sent => match m sent with
              | (Some a, sent') => f a sent'
              | (None, sent') => (None, sent')
              end.

Section PricingAdmin.

Context (call_contract_func : PricingTx -> option Z).

Definition send (tx : PricingTx) : Sender Z :=
  fun sent => (call_contract_func tx, sent ++ [tx]).

(** [add_token(token)] *)
Definition add_token (t : address) : Sender Z := send (addToken t).

(** [set_token_control_info(token, minimal_record_resolution,
    max_per_block_imbalance, max_total_imbalance)] *)
Definition set_token_control_info (t : address)
    (minimal_record_resolution max_per_block_imbalance max_total_imbalance : Z) : Sender Z :=
  send (setTokenControlInfo t minimal_record_resolution max_per_block_imbalance
          max_total_imbalance).

(** [enable_token_trade(token)] *)
Definition enable_token_trade (t : address) : Sender Z := send (enableTokenTrade t).

(** [add_new_token(token, minimal_record_resolution, max_per_block_imbalance,
    max_total_imbalance)]: the three hashes are discarded, the call returns
    [None] ([tt]). *)
Definition add_new_token (t : address)
    (minimal_record_resolution max_per_block_imbalance max_total_imbalance : Z) : Sender unit :=
  sender_bind (add_token t) (fun _ =>
  sender_bind (set_token_control_info t minimal_record_resolution max_per_block_imbalance
                 max_total_imbalance) (fun _ =>
  sender_bind (enable_token_trade t) (fun _ sent => (Some tt, sent)))).

End PricingAdmin.

(** A read of a token's compact-data position. *)
Definition is_index_read {Hex : Type} (e : Event Hex) : bool :=
  match e with ReadCompactData _ => true | _ => false end.


(** A computation that leaves the token-index cache as it is and makes no
    token-index read. *)
Definition keeps_cache {Hex : Type} {A} (m : M Hex A) : Prop :=
  forall s, let (_, s') := m s in
  token_indices_cache s' = token_indices_cache s /\
  exists evs, trace s' = trace s ++ evs /\ Forall (fun e => is_index_read e = false) evs.

(** A field index in [-14..-1] names slot [f + 14] of a 14-slot list. *)
Definition norm_field (f : Z) : Z := if (-14 <=? f) && (f <? 0) then f + 14 else f.

Definition normalize_indices (token_indices : dict Z TokenIndex) : dict Z TokenIndex :=
  map (fun kv => (fst kv, mkTokenIndex (array_idx (snd kv)) (norm_field (field_idx (snd kv)))))
    token_indices.

(** A computation after which every token it read successfully from the
    chain is cached with the chain's answer, and no cache entry is lost. *)
Definition caches_reads {Hex : Type} (chain : Chain Hex) {A} (m : M Hex A) : Prop :=
  forall s, let (_, s') := m s in
  (forall t ti, dict_get (token_indices_cache s) t = Some ti ->
                dict_get (token_indices_cache s') t = Some ti) /\
  exists evs, trace s' = trace s ++ evs /\
    forall t a f, In (ReadCompactData t) evs -> getCompactData chain t = Some (a, f) ->
      dict_get (token_indices_cache s') t = Some (mkTokenIndex a f).

(** * Properties *)

(** ** Concrete scenarios of the spec *)

Example delta_105 : delta_bps (of_Z 105) (of_Z 100) = Some 50.
Proof. vm_compute. reflexivity. Qed.
Example delta_9863 : delta_bps (of_decimal 9863 2) (of_Z 100) = Some (-13).
Proof. vm_compute. reflexivity. Qed.
Example gcd_987 : get_compact_data (of_decimal 987 1) (of_Z 100)
  = Some (mkCompactData (of_Z 100) 243).
Proof. vm_compute. reflexivity. Qed.

Example gcd_105 : get_compact_data (of_Z 105) (of_Z 100)
  = Some (mkCompactData (of_Z 100) 50).
Proof. vm_compute. reflexivity. Qed.
Example gcd_150 : get_compact_data (of_Z 150) (of_Z 100)
  = Some (mkCompactData (of_Z 150) 0).
Proof. vm_compute. reflexivity. Qed.
Example gcd_80 : get_compact_data (of_Z 80) (of_Z 100)
  = Some (mkCompactData (of_Z 80) 0).
Proof. vm_compute. reflexivity. Qed.
Example gcd_87 : get_compact_data (of_Z 87) (of_Z 100)
  = Some (mkCompactData (of_Z 87) 0).
Proof. vm_compute. reflexivity. Qed.

(** ** Compaction *)

Lemma eqb_zero_pos (x : float) :
  SFltb (of_Z 0) x = true -> eqb x (of_Z 0) = false.
Proof. destruct x as [[] | [] | | [] m e]; vm_compute; congruence. Qed.

Lemma eqb_refl_not_nan (x : float) : x <> S754_nan -> eqb x x = true.
Proof.
  intros Hn. unfold eqb, SFeqb, SFcompare.
  destruct x as [[] | [] | | [] m e]; try reflexivity; try congruence;
    rewrite Z.compare_refl; rewrite Pos.compare_cont_refl; reflexivity.
Qed.

(** The shape of every result of [get_compact_data]: either the reset
    [(rate, 0)], or the recorded base with a byte encoding a delta in
    [-127..126]. *)
Lemma get_compact_data_cases (rate b : float) (cd : CompactData) :
  get_compact_data rate b = Some cd ->
  (cd = mkCompactData rate 0 /\
     (eqb b (of_Z 0) = true \/
      exists d, delta_bps rate b = Some d /\ (d <= -128 \/ 127 <= d)))
  \/ (eqb b (of_Z 0) = false /\
      exists d, delta_bps rate b = Some d /\ -128 < d < 127 /\
        cd = mkCompactData b (if d <? 0 then d + 256 else d)).
Proof.
  unfold get_compact_data. destruct (eqb b (of_Z 0)) eqn:Hz.
  - intros H. injection H as <-. left. split; [reflexivity | left; reflexivity].
  - destruct (delta_bps rate b) as [d|] eqn:Hd; [|discriminate].
    destruct ((d <=? -128) || (127 <=? d)) eqn:Hr; intros H; injection H as <-.
    + left. split; [reflexivity|]. right. exists d. split; [reflexivity|].
      apply orb_true_iff in Hr as [Hr|Hr]; [left|right]; lia.
    + right. split; [reflexivity|]. exists d.
      apply orb_false_iff in Hr as [H1 H2]. repeat split; lia.
Qed.

(** C1: for positive [rate] and [base], when the delta lies strictly between
    -128 and 127, [get_compact_data] keeps [base] and encodes the delta as
    an unsigned byte ([delta] or [delta + 256]), which decodes back to it. *)
Theorem get_compact_data_fits (rate b : float) (d : Z) :
  SFltb (of_Z 0) rate = true -> SFltb (of_Z 0) b = true ->
  delta_bps rate b = Some d -> -128 < d < 127 ->
  get_compact_data rate b
    = Some (mkCompactData b (if 0 <=? d then d else d + 256)) /\
  decode_byte (if 0 <=? d then d else d + 256) = d.
Proof.
  intros _ Hb Hd Hr. unfold get_compact_data.
  rewrite (eqb_zero_pos b Hb), Hd.
  replace ((d <=? -128) || (127 <=? d)) with false
    by (symmetry; apply orb_false_iff; split; apply Z.leb_gt; lia).
  unfold decode_byte.
  destruct (0 <=? d) eqn:H0.
  - apply Z.leb_le in H0. replace (d <? 0) with false by (symmetry; apply Z.ltb_ge; lia).
    replace (127 <? d) with false by (symmetry; apply Z.ltb_ge; lia). split; reflexivity.
  - apply Z.leb_gt in H0. replace (d <? 0) with true by (symmetry; apply Z.ltb_lt; lia).
    replace (127 <? d + 256) with true by (symmetry; apply Z.ltb_lt; lia).
    split; [reflexivity | lia].
Qed.

Lemma get_compact_data_fits_witness :
  (SFltb (of_Z 0) (of_Z 105) = true /\ SFltb (of_Z 0) (of_Z 100) = true /\
   delta_bps (of_Z 105) (of_Z 100) = Some 50 /\ -128 < 50 < 127) /\
  get_compact_data (of_Z 105) (of_Z 100)
    = Some (mkCompactData (of_Z 100) (if 0 <=? 50 then 50 else 50 + 256)) /\
  decode_byte (if 0 <=? 50 then 50 else 50 + 256) = 50.
Proof.
  split; [repeat split; first [lia | vm_compute; reflexivity] |].
  apply get_compact_data_fits;
    [vm_compute; reflexivity | vm_compute; reflexivity | vm_compute; reflexivity | lia].
Defined.

(** C2: for a non-zero [base], a delta [<= -128] or [>= 127] resets:
    [get_compact_data] returns [(rate, 0)]; the bounds -128 and 127 are
    themselves reset. *)
Theorem get_compact_data_reset (rate b : float) (d : Z) :
  eqb b (of_Z 0) = false ->
  delta_bps rate b = Some d -> d <= -128 \/ 127 <= d ->
  get_compact_data rate b = Some (mkCompactData rate 0).
Proof.
  intros Hz Hd Hr. unfold get_compact_data. rewrite Hz, Hd.
  replace ((d <=? -128) || (127 <=? d)) with true; [reflexivity|].
  symmetry. apply orb_true_iff. destruct Hr; [left|right]; apply Z.leb_le; lia.
Qed.

Lemma get_compact_data_reset_witness :
  (eqb (of_Z 1000) (of_Z 0) = false /\
   delta_bps (of_Z 1127) (of_Z 1000) = Some 127 /\ (127 <= -128 \/ 127 <= 127)) /\
  get_compact_data (of_Z 1127) (of_Z 1000) = Some (mkCompactData (of_Z 1127) 0).
Proof.
  split; [split; [vm_compute; reflexivity | split; [vm_compute; reflexivity | right; lia]] |].
  apply (get_compact_data_reset (of_Z 1127) (of_Z 1000) 127);
    [vm_compute; reflexivity | vm_compute; reflexivity | right; lia].
Defined.

(** C3: with a zero base, [get_compact_data(rate, 0)] is [(rate, 0)]. *)
Theorem get_compact_data_zero_base (rate : float) :
  get_compact_data rate (of_Z 0) = Some (mkCompactData rate 0).
Proof. reflexivity. Qed.

(** C9: the delta is [int()] of the float, a truncation toward zero, not a
    floor: for every finite float with a fractional part, the result is the
    integer part of its magnitude with its sign; [(98.63/100 - 1) * 1000]
    is below -13 and its delta is -13, and [get_compact_data(98.7, 100)] is
    [(100, 243)]. *)
Theorem delta_bps_truncates :
  (forall s m e, e < 0 ->
     exists t, to_int (S754_finite s m e) = Some t /\
       Z.abs t * 2 ^ (- e) <= Z.pos m < (Z.abs t + 1) * 2 ^ (- e) /\
       (if s then t <= 0 else 0 <= t)) /\
  SFltb (mul (sub (div (of_decimal 9863 2) (of_Z 100)) (of_Z 1)) (of_Z 1000))
        (of_Z (-13)) = true /\
  delta_bps (of_decimal 9863 2) (of_Z 100) = Some (-13) /\
  get_compact_data (of_decimal 987 1) (of_Z 100)
    = Some (mkCompactData (of_Z 100) 243).
Proof.
  split; [| vm_compute; split; [reflexivity | split; reflexivity]].
  intros s m e He. simpl.
  replace (0 <=? e) with false by (symmetry; apply Z.leb_gt; lia).
  assert (Hp : 0 < 2 ^ (- e)) by (apply Z.pow_pos_nonneg; lia).
  assert (Hq : 0 <= Z.pos m / 2 ^ (- e)) by (apply Z.div_pos; lia).
  pose proof (Z.mul_div_le (Z.pos m) (2 ^ (- e)) Hp) as H1.
  pose proof (Z.mod_pos_bound (Z.pos m) (2 ^ (- e)) Hp) as H2.
  pose proof (Z.div_mod (Z.pos m) (2 ^ (- e)) ltac:(lia)) as H3.
  destruct s; eexists; (split; [reflexivity|]);
    rewrite ?Z.abs_opp, Z.abs_eq by lia; split; [nia | lia | nia | lia].
Qed.

(** C10: every result of [get_compact_data] has its compact field in
    [0..126] or [129..255]: a byte, never 127 or 128. *)
Theorem get_compact_data_byte (rate b : float) (cd : CompactData) :
  get_compact_data rate b = Some cd ->
  (0 <= compact cd <= 126 \/ 129 <= compact cd <= 255).
Proof.
  intros H. apply get_compact_data_cases in H as [[-> _] | [_ [d [_ [Hr ->]]]]].
  - left. simpl. lia.
  - simpl. destruct (d <? 0) eqn:Hn; [apply Z.ltb_lt in Hn | apply Z.ltb_ge in Hn]; lia.
Qed.

Lemma get_compact_data_byte_witness :
  get_compact_data (of_decimal 987 1) (of_Z 100)
    = Some (mkCompactData (of_Z 100) 243) /\
  (0 <= compact (mkCompactData (of_Z 100) 243) <= 126 \/
   129 <= compact (mkCompactData (of_Z 100) 243) <= 255).
Proof.
  split; [vm_compute; reflexivity |].
  apply (get_compact_data_byte (of_decimal 987 1) (of_Z 100)).
  vm_compute. reflexivity.
Defined.

(** ** Grouping by array index *)

Lemma existsb_eqb_In (k : Z) (l : list Z) : existsb (Z.eqb k) l = true <-> In k l.
Proof.
  rewrite existsb_exists. split.
  - intros [x [Hx Hk]]. apply Z.eqb_eq in Hk. subst. exact Hx.
  - intros H. exists k. split; [exact H | apply Z.eqb_refl].
Qed.

Lemma NoDup_snoc (l : list Z) (k : Z) : NoDup l -> ~ In k l -> NoDup (l ++ [k]).
Proof.
  intros Hl Hk. apply (Permutation_NoDup (Permutation_cons_append l k)).
  constructor; assumption.
Qed.

Lemma first_occurrences_snoc (l : list Z) (k : Z) :
  first_occurrences (l ++ [k]) =
  if existsb (Z.eqb k) (first_occurrences l) then first_occurrences l
  else first_occurrences l ++ [k].
Proof. unfold first_occurrences. rewrite fold_left_app. reflexivity. Qed.

Lemma first_occurrences_NoDup (l : list Z) : NoDup (first_occurrences l).
Proof.
  induction l as [|k l IH] using rev_ind; [constructor|].
  rewrite first_occurrences_snoc. destruct (existsb (Z.eqb k) _) eqn:He; [exact IH|].
  apply NoDup_snoc; [exact IH|]. intros Hin. apply existsb_eqb_In in Hin. congruence.
Qed.

Lemma first_occurrences_In (l : list Z) (k : Z) : In k (first_occurrences l) <-> In k l.
Proof.
  induction l as [|x l IH] using rev_ind; [reflexivity|].
  rewrite first_occurrences_snoc, in_app_iff. simpl.
  destruct (existsb (Z.eqb x) _) eqn:He.
  - apply existsb_eqb_In in He. rewrite IH. intuition (subst; auto).
  - rewrite in_app_iff, IH. simpl. tauto.
Qed.

Lemma dict_get_entries {V} (F : Z -> V) (ks : list Z) (k : Z) :
  dict_get (entries F ks) k = if existsb (Z.eqb k) ks then Some (F k) else None.
Proof.
  induction ks as [|k0 ks IH]; [reflexivity|]. simpl.
  rewrite (Z.eqb_sym k k0). destruct (k0 =? k) eqn:E; [apply Z.eqb_eq in E; subst; reflexivity|].
  exact IH.
Qed.

Lemma entries_ext {V} (F G : Z -> V) (ks : list Z) :
  (forall k, In k ks -> F k = G k) -> entries F ks = entries G ks.
Proof. intros H. apply map_ext_in. intros k Hk. rewrite H by exact Hk. reflexivity. Qed.

Lemma dict_set_entries_in {V} (F : Z -> V) (ks : list Z) (k : Z) (v : V) :
  NoDup ks -> In k ks ->
  dict_set (entries F ks) k v = entries (fun k' => if k' =? k then v else F k') ks.
Proof.
  induction ks as [|k0 ks IH]; intros Hnd Hin; [destruct Hin|].
  inversion Hnd as [|? ? Hk0 Hnd']; subst. simpl.
  destruct (k0 =? k) eqn:E.
  - apply Z.eqb_eq in E. subst. f_equal. apply entries_ext.
    intros k' Hk'. destruct (k' =? k) eqn:E'; [apply Z.eqb_eq in E'; subst; contradiction|reflexivity].
  - f_equal. apply IH; [exact Hnd'|]. destruct Hin as [->|Hin]; [rewrite Z.eqb_refl in E; discriminate|exact Hin].
Qed.

Lemma dict_set_entries_notin {V} (F : Z -> V) (ks : list Z) (k : Z) (v : V) :
  ~ In k ks ->
  dict_set (entries F ks) k v = entries (fun k' => if k' =? k then v else F k') (ks ++ [k]).
Proof.
  induction ks as [|k0 ks IH]; intros Hin; simpl.
  - rewrite Z.eqb_refl. reflexivity.
  - destruct (k0 =? k) eqn:E; [apply Z.eqb_eq in E; subst; destruct Hin; left; reflexivity|].
    f_equal. apply IH. intros H. apply Hin. right. exact H.
Qed.

Lemma replace_nth_length (n : nat) (v : Z) (l : list Z) : length (replace_nth n v l) = length l.
Proof.
  revert n. induction l as [|x l IH]; intros [|n]; simpl; try reflexivity. rewrite IH. reflexivity.
Qed.

Lemma set_item_in_range (l : list Z) (i v : Z) :
  length l = 14%nat -> 0 <= i < 14 -> set_item l i v = Some (replace_nth (Z.to_nat i) v l).
Proof.
  intros Hl Hi. unfold set_item. rewrite Hl. simpl.
  replace (i <? 0) with false by (symmetry; apply Z.ltb_ge; lia).
  replace ((0 <=? i) && (i <? 14)) with true by (symmetry; apply andb_true_iff; split;
    [apply Z.leb_le | apply Z.ltb_lt]; lia).
  reflexivity.
Qed.

Section GroupPrices.

Context (token_indices : dict Z TokenIndex).

Lemma spec_array_snoc (sel : Price -> Z) (pre : list Price) (p : Price) (k : Z) :
  spec_array sel token_indices (pre ++ [p]) k =
  if price_array_idx token_indices p =? k
  then replace_nth (Z.to_nat (field_idx (index_of token_indices (token p)))) (sel p)
         (spec_array sel token_indices pre k)
  else spec_array sel token_indices pre k.
Proof. unfold spec_array. rewrite fold_left_app. reflexivity. Qed.

Lemma spec_array_length (sel : Price -> Z) (pre : list Price) (k : Z) :
  length (spec_array sel token_indices pre k) = 14%nat.
Proof.
  induction pre as [|p pre IH] using rev_ind; [reflexivity|].
  rewrite spec_array_snoc. destruct (price_array_idx token_indices p =? k); [rewrite replace_nth_length|]; exact IH.
Qed.

Lemma spec_array_absent (sel : Price -> Z) (pre : list Price) (k : Z) :
  ~ In k (map (price_array_idx token_indices) pre) -> spec_array sel token_indices pre k = zeros14.
Proof.
  induction pre as [|p pre IH] using rev_ind; intros Hn; [reflexivity|].
  rewrite map_app in Hn. rewrite spec_array_snoc.
  destruct (price_array_idx token_indices p =? k) eqn:E.
  - apply Z.eqb_eq in E. exfalso. apply Hn. apply in_app_iff. right. left. exact E.
  - apply IH. intros H. apply Hn. apply in_app_iff. left. exact H.
Qed.

Lemma spec_indices_snoc (pre : list Price) (p : Price) :
  spec_indices token_indices (pre ++ [p]) = first_occurrences (map (price_array_idx token_indices) pre ++ [price_array_idx token_indices p]).
Proof. unfold spec_indices. rewrite map_app. reflexivity. Qed.

Lemma group_prices_batch (ps pre : list Price) :
  Forall (well_indexed token_indices) ps ->
  group_prices token_indices (batch_so_far token_indices pre) ps = Some (batch_so_far token_indices (pre ++ ps)).
Proof.
  revert pre. induction ps as [|p ps IH]; intros pre Hok.
  - rewrite app_nil_r. reflexivity.
  - inversion Hok as [|? ? [ti [Hget Hf]] Hok']; subst. simpl. rewrite Hget.
    assert (Hkey : price_array_idx token_indices p = array_idx ti)
      by (unfold price_array_idx, index_of; rewrite Hget; reflexivity).
    assert (Hfield : field_idx (index_of token_indices (token p)) = field_idx ti)
      by (unfold index_of; rewrite Hget; reflexivity).
    set (F := fun k => (spec_array compact_buy token_indices pre k,
                        spec_array compact_sell token_indices pre k)).
    set (k := array_idx ti).
    set (ks' := spec_indices token_indices (pre ++ [p])).
    assert (Hres :
      (if dict_mem (batch_so_far token_indices pre) k then batch_so_far token_indices pre
       else dict_set (batch_so_far token_indices pre) k (zeros14, zeros14)) = entries F ks'
      /\ NoDup ks' /\ In k ks').
    { unfold ks'. rewrite spec_indices_snoc, first_occurrences_snoc, Hkey.
      change (first_occurrences (map (price_array_idx token_indices) pre)) with (spec_indices token_indices pre).
      fold k.
      unfold dict_mem, batch_so_far. rewrite dict_get_entries.
      destruct (existsb (Z.eqb k) (spec_indices token_indices pre)) eqn:E.
      - split; [reflexivity|]. split; [apply first_occurrences_NoDup|].
        apply existsb_eqb_In. exact E.
      - assert (Hn : ~ In k (spec_indices token_indices pre))
          by (intros H; apply existsb_eqb_In in H; congruence).
        rewrite dict_set_entries_notin by exact Hn. split; [|split].
        + apply entries_ext. intros k' _. destruct (k' =? k) eqn:E'; [|reflexivity].
          apply Z.eqb_eq in E'. subst k'. unfold F.
          rewrite !spec_array_absent; [reflexivity| |];
            intros H; apply Hn; apply first_occurrences_In; exact H.
        + apply NoDup_snoc; [apply first_occurrences_NoDup | exact Hn].
        + apply in_app_iff. right. left. reflexivity. }
    destruct Hres as [-> [Hnd Hin]].
    rewrite dict_get_entries. replace (existsb (Z.eqb k) ks') with true
      by (symmetry; apply existsb_eqb_In; exact Hin).
    unfold F at 1. simpl.
    rewrite !set_item_in_range by (exact Hf || apply spec_array_length).
    rewrite dict_set_entries_in by assumption.
    replace (pre ++ p :: ps) with ((pre ++ [p]) ++ ps) by (rewrite <- app_assoc; reflexivity).
    rewrite <- IH by exact Hok'. f_equal.
    unfold batch_so_far. fold ks'. apply entries_ext. intros k' _.
    rewrite !spec_array_snoc, Hkey, Hfield. unfold F, k.
    rewrite (Z.eqb_sym k' (array_idx ti)).
    destruct (array_idx ti =? k') eqn:E; [apply Z.eqb_eq in E; subst k'|]; reflexivity.
Qed.

End GroupPrices.

(** C5: [build_compact_price] groups the updates by array index: one entry
    per distinct array index, in order of first occurrence, with a 14-slot
    buy and sell array starting at 0 and overwritten at each matching
    token's field index; the three output lists have the same length.  Two
    updates at array index 0, fields 3 and 5, give a single entry for index
    0 set at positions 3 and 5 and 0 elsewhere. *)
Theorem build_compact_price_groups {Hex : Type} (hexlify : list Z -> Hex)
    (prices : list Price) (token_indices : dict Z TokenIndex) :
  Forall (well_indexed token_indices) prices ->
  build_compact_price hexlify prices token_indices
    = Some (compact_batch_spec hexlify prices token_indices) /\
  NoDup (spec_indices token_indices prices) /\
  (forall k, length (spec_array compact_buy token_indices prices k) = 14%nat /\
             length (spec_array compact_sell token_indices prices k) = 14%nat) /\
  (let '(buy, sell, indices) := compact_batch_spec hexlify prices token_indices in
   length buy = length indices /\ length sell = length indices) /\
  build_compact_price hexlify example_prices example_token_indices
    = Some ([hexlify [0; 0; 0; 50; 0; 7; 0; 0; 0; 0; 0; 0; 0; 0]],
            [hexlify [0; 0; 0; 243; 0; 249; 0; 0; 0; 0; 0; 0; 0; 0]],
            [0]).
Proof.
  intros Hok. split; [|split; [|split; [|split]]].
  - unfold build_compact_price.
    pose proof (group_prices_batch token_indices prices [] Hok) as H.
    change (batch_so_far token_indices []) with (@nil (Z * (list Z * list Z))) in H.
    rewrite H. unfold batch_so_far, entries, compact_batch_spec.
    rewrite !map_map. cbn [app fst snd]. rewrite map_id. reflexivity.
  - apply first_occurrences_NoDup.
  - intros k. split; apply spec_array_length.
  - unfold compact_batch_spec. rewrite !length_map. split; reflexivity.
  - reflexivity.
Qed.

Lemma build_compact_price_groups_witness :
  Forall (well_indexed example_token_indices) example_prices /\
  build_compact_price (fun l => l) example_prices example_token_indices
    = Some (compact_batch_spec (fun l => l) example_prices example_token_indices).
Proof.
  assert (Hok : Forall (well_indexed example_token_indices) example_prices).
  { unfold example_prices.
    repeat (apply Forall_cons; [eexists; split; [reflexivity | simpl; lia] |]).
    apply Forall_nil. }
  split; [exact Hok|].
  apply (build_compact_price_groups (fun l => l) example_prices example_token_indices Hok).
Defined.

(** ** [build_price] *)

Lemma delta_bps_nan (rate : float) : delta_bps rate S754_nan = None.
Proof. destruct rate as [[] | [] | | [] m e]; reflexivity. Qed.

(** One leg of [build_price]: a reset gives [(rate, 0)], otherwise the
    recorded base, which is then not NaN, and the delta byte. *)
Lemma get_compact_data_leg (rate b : float) (cd : CompactData) :
  get_compact_data rate b = Some cd ->
  (takes_reset rate b = true /\ cd = mkCompactData rate 0) \/
  (takes_reset rate b = false /\ base cd = b /\ eqb b b = true /\
   exists d, delta_bps rate b = Some d /\ -128 < d < 127 /\
     compact cd = (if d <? 0 then d + 256 else d)).
Proof.
  intros H. unfold takes_reset.
  apply get_compact_data_cases in H as [[-> Hr] | [Hz [d [Hd [Hr ->]]]]].
  - left. split; [|reflexivity].
    destruct Hr as [-> | [d [-> Hr]]]; [reflexivity|].
    apply orb_true_iff. right. apply orb_true_iff.
    destruct Hr; [left|right]; apply Z.leb_le; lia.
  - right. rewrite Hz, Hd. split; [|split; [reflexivity|split]].
    + simpl. apply orb_false_iff; split; apply Z.leb_gt; lia.
    + apply eqb_refl_not_nan. intros ->. rewrite delta_bps_nan in Hd. discriminate.
    + exists d. repeat split; lia.
Qed.

Lemma build_price_result {Hex : Type} (chain : Chain Hex) (t : address) (buy sell : float)
    (s s' : St Hex) (p : Price) :
  build_price chain t buy sell s = (Some p, s') ->
  exists bb bs cb cs,
    getBasicRate chain t true = Some bb /\ getBasicRate chain t false = Some bs /\
    get_compact_data buy bb = Some cb /\ get_compact_data sell bs = Some cs /\
    p = price_update t cb cs bb bs.
Proof.
  unfold build_price, get_basic_rate, bind, emit, lift, ret, raise.
  destruct (getBasicRate chain t true) as [bb|] eqn:E1; [|discriminate].
  destruct (get_compact_data buy bb) as [cb|] eqn:E2; [|discriminate].
  destruct (getBasicRate chain t false) as [bs|] eqn:E3; [|discriminate].
  destruct (get_compact_data sell bs) as [cs|] eqn:E4; [|discriminate].
  intros H. injection H as <- _. exists bb, bs, cb, cs. repeat split; assumption.
Qed.

(** C4 (as stated): when [base_changed] is true, both [base_buy] and
    [base_sell] hold the new rates with compact values 0.  Refuted: buy 150
    against a recorded 100 resets, while sell 105 against 100 fits, so the
    flag is set, yet [base_sell] stays 100 (not 105) and [compact_sell] is
    50. *)
Lemma build_price_partial_reset :
  exists p s',
    build_price example_chain 1 (of_Z 150) (of_Z 105) (mkSt [] []) = (Some p, s') /\
    base_changed p = true /\ base_buy p = of_Z 150 /\ compact_buy p = 0 /\
    base_sell p = of_Z 100 /\ eqb (base_sell p) (of_Z 105) = false /\
    compact_sell p = 50.
Proof.
  eexists; eexists. split; [vm_compute; reflexivity|].
  vm_compute. repeat split; reflexivity.
Qed.

(** C4 (amended): for every price produced by [build_price], with [bb] and
    [bs] the recorded bases read from the chain, [base_changed] is true iff
    some leg took a reset branch of [get_compact_data] (base 0 or delta
    outside [-127..126]) with a new rate different ([!=]) from its recorded
    base; a leg that reset carries its new rate and compact 0, a leg that
    fit keeps its recorded base and its delta byte ([d], or [d + 256] when
    [d] is negative); when [base_changed] is false both bases equal ([==])
    the recorded ones. *)
Theorem build_price_base_changed {Hex : Type} (chain : Chain Hex) (t : address)
    (buy sell : float) (s s' : St Hex) (p : Price) :
  build_price chain t buy sell s = (Some p, s') ->
  exists bb bs,
    getBasicRate chain t true = Some bb /\ getBasicRate chain t false = Some bs /\
    (base_changed p = true <->
       (takes_reset buy bb = true /\ eqb buy bb = false) \/
       (takes_reset sell bs = true /\ eqb sell bs = false)) /\
    (takes_reset buy bb = true -> base_buy p = buy /\ compact_buy p = 0) /\
    (takes_reset buy bb = false ->
       base_buy p = bb /\
       exists d, delta_bps buy bb = Some d /\ -128 < d < 127 /\
         compact_buy p = (if d <? 0 then d + 256 else d)) /\
    (takes_reset sell bs = true -> base_sell p = sell /\ compact_sell p = 0) /\
    (takes_reset sell bs = false ->
       base_sell p = bs /\
       exists d, delta_bps sell bs = Some d /\ -128 < d < 127 /\
         compact_sell p = (if d <? 0 then d + 256 else d)) /\
    (base_changed p = false -> eqb (base_buy p) bb = true /\ eqb (base_sell p) bs = true).
Proof.
  intros H. apply build_price_result in H as [bb [bs [cb [cs [Hb [Hs [Hcb [Hcs ->]]]]]]]].
  exists bb, bs. split; [exact Hb|]. split; [exact Hs|]. unfold price_update. simpl.
  apply get_compact_data_leg in Hcb as [[Rb ->] | [Rb [Eb [Nb Db]]]];
  apply get_compact_data_leg in Hcs as [[Rs ->] | [Rs [Es [Ns Ds]]]]; simpl;
    rewrite ?Rb, ?Rs, ?Eb, ?Es, ?Nb, ?Ns; simpl;
    destruct (eqb buy bb), (eqb sell bs); simpl; intuition congruence.
Qed.

Lemma build_price_base_changed_witness :
  build_price example_chain 1 (of_Z 150) (of_Z 105) (mkSt [] [])
    = (Some example_price, mkSt [] [ReadBasicRate 1 true; ReadBasicRate 1 false]) /\
  exists bb bs,
    getBasicRate example_chain 1 true = Some bb /\
    getBasicRate example_chain 1 false = Some bs /\
    (base_changed example_price = true <->
       (takes_reset (of_Z 150) bb = true /\ eqb (of_Z 150) bb = false) \/
       (takes_reset (of_Z 105) bs = true /\ eqb (of_Z 105) bs = false)) /\
    (takes_reset (of_Z 150) bb = true ->
       base_buy example_price = of_Z 150 /\ compact_buy example_price = 0) /\
    (takes_reset (of_Z 150) bb = false ->
       base_buy example_price = bb /\
       exists d, delta_bps (of_Z 150) bb = Some d /\ -128 < d < 127 /\
         compact_buy example_price = (if d <? 0 then d + 256 else d)) /\
    (takes_reset (of_Z 105) bs = true ->
       base_sell example_price = of_Z 105 /\ compact_sell example_price = 0) /\
    (takes_reset (of_Z 105) bs = false ->
       base_sell example_price = bs /\
       exists d, delta_bps (of_Z 105) bs = Some d /\ -128 < d < 127 /\
         compact_sell example_price = (if d <? 0 then d + 256 else d)) /\
    (base_changed example_price = false ->
       eqb (base_buy example_price) bb = true /\ eqb (base_sell example_price) bs = true).
Proof.
  assert (H : build_price example_chain 1 (of_Z 150) (of_Z 105) (mkSt [] [])
    = (Some example_price, mkSt [] [ReadBasicRate 1 true; ReadBasicRate 1 false]))
    by (vm_compute; reflexivity).
  split; [exact H|].
  exact (build_price_base_changed example_chain 1 (of_Z 150) (of_Z 105) _ _ _ H).
Defined.

(** ** [set_rates] *)

Section SetRatesProofs.

Context {Hex : Type} (hexlify : list Z -> Hex) (chain : Chain Hex).

Lemma reads_only_ret {A} (a : A) : reads_only chain (ret a).
Proof. intros s. exists []. rewrite app_nil_r. repeat split; constructor. Qed.

Lemma reads_only_lift {A} (o : option A) : reads_only chain (lift o).
Proof. intros s. destruct o; exists []; rewrite app_nil_r; repeat split; constructor. Qed.

Lemma reads_only_bind {A B} (m : M Hex A) (f : A -> M Hex B) :
  reads_only chain m -> (forall a, reads_only chain (f a)) -> reads_only chain (bind m f).
Proof.
  intros Hm Hf s. unfold bind. specialize (Hm s). destruct (m s) as [[a|] s1].
  - destruct Hm as [evs1 [T1 [S1 F1]]]. specialize (Hf a s1). destruct (f a s1) as [r s2].
    destruct Hf as [evs2 [T2 [S2 F2]]]. exists (evs1 ++ evs2).
    rewrite T2, T1, app_assoc. split; [reflexivity|]. split; [apply Forall_app; split; assumption|].
    intros Hr. apply Forall_app. split; [apply F1; discriminate | apply F2; exact Hr].
  - destruct Hm as [evs1 [T1 [S1 _]]]. exists evs1. repeat split; try assumption.
    intros H. contradiction.
Qed.

Lemma reads_only_get_basic_rate (t : address) (b : bool) :
  reads_only chain (get_basic_rate chain t b).
Proof.
  intros s. unfold get_basic_rate, bind, emit, lift, ret, raise. simpl.
  destruct (getBasicRate chain t b) eqn:E; exists [ReadBasicRate t b];
    (split; [reflexivity|]); (split; [repeat constructor|]);
    intros H; [repeat constructor; simpl; rewrite E; reflexivity | contradiction].
Qed.

Lemma reads_only_get_token_indices (t : address) :
  reads_only chain (get_token_indices chain t).
Proof.
  intros s. unfold get_token_indices, get_cache, put_cache, bind, emit, lift, ret, raise.
  simpl. destruct (dict_get (token_indices_cache s) t).
  - exists []. rewrite app_nil_r. repeat split; constructor.
  - destruct (getCompactData chain t) eqn:E; exists [ReadCompactData t];
      (split; [reflexivity|]); (split; [repeat constructor|]);
      intros H; [repeat constructor; simpl; rewrite E; reflexivity | contradiction].
Qed.

Lemma reads_only_build_price (t : address) (b s : float) :
  reads_only chain (build_price chain t b s).
Proof.
  unfold build_price.
  repeat (apply reads_only_bind; [first [apply reads_only_get_basic_rate | apply reads_only_lift] | intros ?]).
  apply reads_only_ret.
Qed.

Lemma reads_only_index_tokens (ts : list address) (d : dict Z TokenIndex) :
  reads_only chain (index_tokens chain ts d).
Proof.
  revert d. induction ts as [|t ts IH]; intros d; simpl.
  - apply reads_only_ret.
  - apply reads_only_bind; [apply reads_only_get_token_indices | intros ti; apply IH].
Qed.

Lemma all_some_Some {B} (rs : list (option B)) (l : list B) :
  all_some rs = Some l -> Forall2 (fun r b => r = Some b) rs l.
Proof.
  revert l. induction rs as [|[b|] rs IH]; intros l H; simpl in H.
  - injection H as <-. constructor.
  - destruct (all_some rs) eqn:E; [|discriminate]. injection H as <-.
    constructor; [reflexivity | apply IH; reflexivity].
  - discriminate.
Qed.

Lemma all_some_no_None {B} (rs : list (option B)) (l : list B) :
  all_some rs = Some l -> ~ In None rs.
Proof.
  intros H. apply all_some_Some in H. induction H as [|r b rs l Hrb _ IH]; [intros []|].
  intros [H0 | Hin]; [subst; discriminate | exact (IH Hin)].
Qed.

Lemma all_some_None {B} (rs : list (option B)) :
  all_some rs = None -> In None rs.
Proof.
  induction rs as [|[b|] rs IH]; simpl; intros H; try discriminate.
  - destruct (all_some rs); [discriminate|]. right. apply IH. reflexivity.
  - left. reflexivity.
Qed.

Lemma reads_only_executor_map {A B} (f : A -> M Hex B) (xs : list A) :
  (forall x, reads_only chain (f x)) -> reads_only chain (executor_map f xs).
Proof.
  intros Hf s. unfold executor_map.
  assert (Hrun : forall s, let (rs, s') := run_all f xs s in
    exists evs, trace s' = trace s ++ evs /\
      Forall (fun e => is_submit e = false) evs /\
      (~ In None rs -> Forall (fun e => failed_read chain e = false) evs)).
  { induction xs as [|x xs IH]; intros s0; simpl.
    - exists []. rewrite app_nil_r. repeat split; constructor.
    - specialize (Hf x s0). destruct (f x s0) as [r s1].
      destruct Hf as [evs1 [T1 [S1 F1]]]. specialize (IH s1).
      destruct (run_all f xs s1) as [rs s2]. destruct IH as [evs2 [T2 [S2 F2]]].
      exists (evs1 ++ evs2). rewrite T2, T1, app_assoc. split; [reflexivity|].
      split; [apply Forall_app; split; assumption|].
      intros Hn. apply Forall_app. split.
      + apply F1. intros ->. apply Hn. left. reflexivity.
      + apply F2. intros H. apply Hn. right. exact H. }
  specialize (Hrun s). destruct (run_all f xs s) as [rs s'].
  destruct Hrun as [evs [T [S F]]]. exists evs. split; [exact T|]. split; [exact S|].
  intros Hr. apply F. intros Hin.
  destruct (all_some rs) as [l|] eqn:E; [|contradiction].
  exact (all_some_no_None rs l E Hin).
Qed.

End SetRatesProofs.

Section SetRatesShape.

Context {Hex : Type} (hexlify : list Z -> Hex) (chain : Chain Hex).

Lemma bind_Some {A B} (m : M Hex A) (f : A -> M Hex B) (s s1 : St Hex) (a : A) :
  m s = (Some a, s1) -> bind m f s = f a s1.
Proof. intros H. unfold bind. rewrite H. reflexivity. Qed.

Lemma bind_None {A B} (m : M Hex A) (f : A -> M Hex B) (s s1 : St Hex) :
  m s = (None, s1) -> bind m f s = (None, s1).
Proof. intros H. unfold bind. rewrite H. reflexivity. Qed.

Lemma option_result {A} (o : option A) (s : St Hex) :
  (match o with Some a => fun s : St Hex => (Some a, s) | None => fun s => (None, s) end) s
  = (o, s).
Proof. destruct o; reflexivity. Qed.

Lemma run_all_results {A B} (f : A -> M Hex B) (xs : list A) (s s' : St Hex)
    (rs : list (option B)) :
  run_all f xs s = (rs, s') -> Forall2 (fun x r => exists s1 s2, f x s1 = (r, s2)) xs rs.
Proof.
  revert s s' rs. induction xs as [|x xs IH]; intros s s' rs H; simpl in H.
  - injection H as <- _. constructor.
  - destruct (f x s) as [r s1] eqn:E1. destruct (run_all f xs s1) as [rs' s2] eqn:E2.
    injection H as <- _. constructor; [exists s, s1; exact E1 | exact (IH s1 s2 rs' E2)].
Qed.

Lemma executor_map_results {A B} (f : A -> M Hex B) (xs : list A) (s s' : St Hex)
    (ys : list B) :
  executor_map f xs s = (Some ys, s') ->
  Forall2 (fun x y => exists s1 s2, f x s1 = (Some y, s2)) xs ys.
Proof.
  unfold executor_map. destruct (run_all f xs s) as [rs s2] eqn:E. intros H.
  injection H as Hys _. apply run_all_results in E. apply all_some_Some in Hys.
  revert ys Hys. induction E as [|x r xs rs Hx _ IH]; intros ys Hys;
    inversion Hys as [|? y ? ys' Hr Hrest]; subst; constructor.
  - destruct Hx as [s1 [s3 Hx]]. exists s1, s3. exact Hx.
  - apply IH. exact Hrest.
Qed.

Lemma priced_results (ts : list address) (bs ss : list float) (prices : list Price) :
  Forall2 (fun x y => exists s1 s2,
             (let '(t, b, s) := x in build_price chain t b s) s1 = (Some y, s2))
    (zip3 ts bs ss) prices ->
  Forall2 (priced chain) (zip3 ts bs ss) prices.
Proof.
  apply Forall2_impl. intros [[t b] s] p [s1 [s2 H]].
  apply build_price_result in H. exact H.
Qed.

Lemma priced_tokens (ts : list address) (bs ss : list float) (prices : list Price) :
  Forall2 (priced chain) (zip3 ts bs ss) prices ->
  map token prices = map (fun x => let '(t, _, _) := x in t) (zip3 ts bs ss).
Proof.
  intros H. induction H as [|[[t b] s] p xs ps Hp _ IH]; [reflexivity|].
  simpl. rewrite IH. f_equal.
  destruct Hp as [bb [bs' [cb [cs [_ [_ [_ [_ ->]]]]]]]]. reflexivity.
Qed.

Lemma zip3_tokens (ts : list address) (bs ss : list float) :
  length bs = length ts -> length ss = length ts ->
  map (fun x => let '(t, _, _) := x in t) (zip3 ts bs ss) = ts.
Proof.
  revert bs ss. induction ts as [|t ts IH]; intros [|b bs] [|s ss] Hb Hs;
    simpl in *; try discriminate; try reflexivity.
  f_equal. apply IH; lia.
Qed.

Lemma filter_nil_existsb {A} (f : A -> bool) (l : list A) :
  filter f l = [] <-> existsb f l = false.
Proof.
  induction l as [|x l IH]; simpl; [tauto|].
  destruct (f x); simpl; [split; discriminate|exact IH].
Qed.

End SetRatesShape.

(** The outcome of a [set_rates] call: it raises before any submission, or
    it makes successful reads, one block number read and one submission. *)
Lemma set_rates_outcome {Hex : Type} (hexlify : list Z -> Hex)
    (chain : Chain Hex) (token_addresses : list address) (buy_rates sell_rates : list float)
    (cache : dict Z TokenIndex) (r : option Z) (st : St Hex) :
  set_rates hexlify chain token_addresses buy_rates sell_rates (mkSt cache []) = (r, st) ->
  (r = None /\ Forall (fun e => is_submit e = false) (trace st)) \/
  (exists evs tx prices token_indices compact_buys compact_sells indices block,
     trace st = evs ++ [ReadBlockNumber; Submit tx] /\
     Forall (fun e => is_submit e = false) evs /\
     Forall (fun e => failed_read chain e = false) evs /\
     r = call_contract_func chain tx /\
     blockNumber chain = Some block /\
     Forall2 (priced chain) (zip3 token_addresses buy_rates sell_rates) prices /\
     (length buy_rates = length token_addresses ->
      length sell_rates = length token_addresses -> map token prices = token_addresses) /\
     build_compact_price hexlify prices token_indices
       = Some (compact_buys, compact_sells, indices) /\
     tx = if existsb base_changed prices
          then setBaseRate (map token (filter base_changed prices))
                 (map base_buy (filter base_changed prices))
                 (map base_sell (filter base_changed prices))
                 compact_buys compact_sells block indices
          else setCompactData compact_buys compact_sells block indices).
Proof.
  set (s0 := mkSt cache []). unfold set_rates.
  pose proof (reads_only_index_tokens chain token_addresses [] s0) as R1.
  destruct (index_tokens chain token_addresses [] s0) as [[tis|] s1] eqn:E1;
    destruct R1 as [evs1 [T1 [S1 F1]]];
    [rewrite (bind_Some _ _ _ _ _ E1) | rewrite (bind_None _ _ _ _ E1)];
    [| intros H; injection H as <- <-; left; split; [reflexivity | rewrite T1; exact S1]].
  set (f := fun p : address * float * float => let '(t, b, s) := p in build_price chain t b s).
  pose proof (reads_only_executor_map chain f (zip3 token_addresses buy_rates sell_rates)
                (fun p => let '(t, b, s) := p in reads_only_build_price chain t b s) s1) as R2.
  destruct (executor_map f (zip3 token_addresses buy_rates sell_rates) s1)
    as [[prices|] s2] eqn:E2;
    destruct R2 as [evs2 [T2 [S2 F2]]];
    [rewrite (bind_Some _ _ _ _ _ E2) | rewrite (bind_None _ _ _ _ E2)];
    [| intros H; injection H as <- <-; left; split; [reflexivity|];
       rewrite T2, T1; apply Forall_app; split; assumption].
  assert (HF1 := F1 ltac:(discriminate)). assert (HF2 := F2 ltac:(discriminate)).
  pose proof (priced_results chain _ _ _ _ (executor_map_results _ _ _ _ _ E2)) as Hpr.
  destruct (build_compact_price hexlify prices tis) as [[[cb cs] idx]|] eqn:E3;
    simpl; [| intros H; injection H as <- <-; left; split; [reflexivity|];
             rewrite T2, T1; apply Forall_app; split; assumption].
  destruct (blockNumber chain) as [blk|] eqn:E4;
    destruct (filter base_changed prices) as [|p0 ps0] eqn:E5; intros H;
    cbv [read_block_number submit bind emit lift ret raise] in H; rewrite E4 in H;
    simpl in H; rewrite ?option_result in H; injection H as <- <-;
    [right; exists (evs1 ++ evs2), (setCompactData cb cs blk idx)
    | right; exists (evs1 ++ evs2), (setBaseRate (map token (p0 :: ps0))
        (map base_buy (p0 :: ps0)) (map base_sell (p0 :: ps0)) cb cs blk idx)
    | left | left].
  1, 2: exists prices, tis, cb, cs, idx, blk; simpl;
    (split; [rewrite T2, T1; simpl; rewrite <- app_assoc; reflexivity|]);
    (split; [apply Forall_app; split; assumption|]);
    (split; [apply Forall_app; split; assumption|]);
    (split; [reflexivity|]); (split; [reflexivity|]); (split; [exact Hpr|]);
    (split; [intros Hb Hs; rewrite (priced_tokens chain _ _ _ _ Hpr);
             apply zip3_tokens; assumption|]);
    (split; [exact E3|]).
  - apply filter_nil_existsb in E5. rewrite E5. reflexivity.
  - replace (existsb base_changed prices) with true; [rewrite E5; reflexivity|].
    destruct (existsb base_changed prices) eqn:Ex; [reflexivity|].
    apply filter_nil_existsb in Ex. congruence.
  - split; [reflexivity|]. simpl. rewrite T2, T1. simpl. apply Forall_app. split;
      [apply Forall_app; split; assumption | repeat constructor].
  - split; [reflexivity|]. simpl. rewrite T2, T1. simpl. apply Forall_app. split;
      [apply Forall_app; split; assumption | repeat constructor].
Qed.

(** C6: a [set_rates] call submits at most one transaction, and exactly one
    whenever it gets to submission.  Either it raises before submitting
    anything, or its chain interactions are reads followed by one block
    number read and one submission, whose result is the call's result.  The
    prices are those [build_price] gives for every token (all of them when
    the three lists have the same length); the transaction is
    [setBaseRate] with the new bases of exactly the tokens whose
    [base_changed] is true and the compact batch of all prices when at
    least one such token exists, and [setCompactData] with the compact batch
    and array indices otherwise. *)
Theorem set_rates_one_transaction {Hex : Type} (hexlify : list Z -> Hex)
    (chain : Chain Hex) (token_addresses : list address) (buy_rates sell_rates : list float)
    (cache : dict Z TokenIndex) (r : option Z) (st : St Hex) :
  set_rates hexlify chain token_addresses buy_rates sell_rates (mkSt cache []) = (r, st) ->
  (r = None /\ Forall (fun e => is_submit e = false) (trace st)) \/
  (exists evs tx prices token_indices compact_buys compact_sells indices block,
     trace st = evs ++ [ReadBlockNumber; Submit tx] /\
     Forall (fun e => is_submit e = false) evs /\
     Forall (fun e => failed_read chain e = false) evs /\
     r = call_contract_func chain tx /\
     blockNumber chain = Some block /\
     Forall2 (priced chain) (zip3 token_addresses buy_rates sell_rates) prices /\
     (length buy_rates = length token_addresses ->
      length sell_rates = length token_addresses -> map token prices = token_addresses) /\
     build_compact_price hexlify prices token_indices
       = Some (compact_buys, compact_sells, indices) /\
     tx = if existsb base_changed prices
          then setBaseRate (map token (filter base_changed prices))
                 (map base_buy (filter base_changed prices))
                 (map base_sell (filter base_changed prices))
                 compact_buys compact_sells block indices
          else setCompactData compact_buys compact_sells block indices).
Proof. exact (set_rates_outcome hexlify chain token_addresses buy_rates sell_rates cache r st). Qed.

Lemma set_rates_one_transaction_witness :
  exists r st,
  set_rates (fun l => l) example_chain [1; 2] [of_Z 150; of_Z 105] [of_Z 100; of_Z 99]
    (mkSt [] []) = (r, st) /\
  ((r = None /\ Forall (fun e => is_submit e = false) (trace st)) \/
  (exists evs tx prices token_indices compact_buys compact_sells indices block,
     trace st = evs ++ [ReadBlockNumber; Submit tx] /\
     Forall (fun e => is_submit e = false) evs /\
     Forall (fun e => failed_read example_chain e = false) evs /\
     r = call_contract_func example_chain tx /\
     blockNumber example_chain = Some block /\
     Forall2 (priced example_chain)
       (zip3 [1; 2] [of_Z 150; of_Z 105] [of_Z 100; of_Z 99]) prices /\
     (length [of_Z 150; of_Z 105] = length [1; 2] ->
      length [of_Z 100; of_Z 99] = length [1; 2] -> map token prices = [1; 2]) /\
     build_compact_price (fun l => l) prices token_indices
       = Some (compact_buys, compact_sells, indices) /\
     tx = if existsb base_changed prices
          then setBaseRate (map token (filter base_changed prices))
                 (map base_buy (filter base_changed prices))
                 (map base_sell (filter base_changed prices))
                 compact_buys compact_sells block indices
          else setCompactData compact_buys compact_sells block indices)).
Proof.
  eexists; eexists. split; [vm_compute; reflexivity|].
  apply (set_rates_one_transaction (fun l => l) example_chain [1; 2]
           [of_Z 150; of_Z 105] [of_Z 100; of_Z 99] []).
  vm_compute. reflexivity.
Defined.

(** One token whose buy rate leaves the byte range among tokens that fit
    makes the single transaction a [setBaseRate] carrying that token only. *)
Example set_rates_one_reset :
  set_rates (fun l => l) example_chain [1; 2] [of_Z 150; of_Z 105] [of_Z 100; of_Z 99]
    (mkSt [] [])
  = (Some 42,
     mkSt [(1, mkTokenIndex 0 3); (2, mkTokenIndex 0 5)]
       [ReadCompactData 1; ReadCompactData 2;
        ReadBasicRate 1 true; ReadBasicRate 1 false;
        ReadBasicRate 2 true; ReadBasicRate 2 false; ReadBlockNumber;
        Submit (setBaseRate [1] [of_Z 150] [of_Z 100]
                  [[0; 0; 0; 0; 0; 50; 0; 0; 0; 0; 0; 0; 0; 0]]
                  [[0; 0; 0; 0; 0; 246; 0; 0; 0; 0; 0; 0; 0; 0]] 7 [0])]).
Proof. vm_compute. reflexivity. Qed.

(** C8: when a token-index lookup or a base-rate read made by [set_rates]
    raises, the call raises and submits no transaction. *)
Theorem set_rates_read_failure_aborts {Hex : Type} (hexlify : list Z -> Hex)
    (chain : Chain Hex) (token_addresses : list address) (buy_rates sell_rates : list float)
    (cache : dict Z TokenIndex) (r : option Z) (st : St Hex) :
  set_rates hexlify chain token_addresses buy_rates sell_rates (mkSt cache []) = (r, st) ->
  (exists e, In e (trace st) /\ failed_read chain e = true) ->
  r = None /\ Forall (fun e => is_submit e = false) (trace st).
Proof.
  intros H [e [Hin He]].
  apply set_rates_outcome in H as [H | [evs [tx [_ [_ [_ [_ [_ [_ [Ht [_ [F _]]]]]]]]]]]];
    [exact H|].
  exfalso. rewrite Ht in Hin. apply in_app_iff in Hin as [Hin | [<- | [<- | []]]];
    [| discriminate | discriminate].
  rewrite Forall_forall in F. rewrite (F e Hin) in He. discriminate.
Qed.

Lemma set_rates_read_failure_aborts_witness :
  exists r st,
  set_rates (fun l => l) example_chain [1; 3] [of_Z 101; of_Z 105] [of_Z 100; of_Z 99]
    (mkSt [] []) = (r, st) /\
  (exists e, In e (trace st) /\ failed_read example_chain e = true) /\
  r = None /\ Forall (fun e => is_submit e = false) (trace st).
Proof.
  eexists; eexists.
  assert (H : set_rates (fun l => l) example_chain [1; 3] [of_Z 101; of_Z 105]
      [of_Z 100; of_Z 99] (mkSt [] [])
    = (None, mkSt [(1, mkTokenIndex 0 3)] [ReadCompactData 1; ReadCompactData 3]))
    by (vm_compute; reflexivity).
  split; [exact H|].
  assert (Hf : exists e, In e [ReadCompactData 1; ReadCompactData 3]
                 /\ failed_read example_chain e = true)
    by (exists (ReadCompactData 3); split; [right; left; reflexivity | reflexivity]).
  split; [exact Hf|].
  exact (set_rates_read_failure_aborts (fun l => l) example_chain [1; 3]
           [of_Z 101; of_Z 105] [of_Z 100; of_Z 99] [] _ _ H Hf).
Defined.

(** C7 (as stated): [set_rates] rejects lists of different lengths or a
    negative rate before any chain interaction.  Refuted: with one token and
    empty rate lists it looks the token up, then submits an empty
    [setCompactData]; with a rate of -50 it looks the token up, reads its
    bases and submits a [setBaseRate] carrying -50. *)
Lemma set_rates_no_validation :
  set_rates (fun l => l) example_chain [1] [] [] (mkSt [] [])
  = (Some 42,
     mkSt [(1, mkTokenIndex 0 3)]
       [ReadCompactData 1; ReadBlockNumber; Submit (setCompactData [] [] 7 [])]) /\
  set_rates (fun l => l) example_chain [1] [of_Z (-50)] [of_Z (-50)] (mkSt [] [])
  = (Some 42,
     mkSt [(1, mkTokenIndex 0 3)]
       [ReadCompactData 1; ReadBasicRate 1 true; ReadBasicRate 1 false; ReadBlockNumber;
        Submit (setBaseRate [1] [of_Z (-50)] [of_Z (-50)] [zeros14] [zeros14] 7 [0])]).
Proof. split; vm_compute; reflexivity. Qed.

Lemma zip3_In_token (ts : list address) (bs ss : list float) (t : address) (b s : float) :
  In (t, b, s) (zip3 ts bs ss) -> In t ts.
Proof.
  revert bs ss. induction ts as [|t0 ts IH]; intros [|b0 bs] [|s0 ss]; simpl; try tauto.
  intros [H | H]; [injection H as -> _ _; left; reflexivity | right; exact (IH _ _ H)].
Qed.

Lemma zip3_length (ts : list address) (bs ss : list float) :
  length (zip3 ts bs ss) = Nat.min (length ts) (Nat.min (length bs) (length ss)).
Proof.
  revert bs ss. induction ts as [|t ts IH]; intros [|b bs] [|s ss]; simpl; try lia.
  rewrite IH. reflexivity.
Qed.

Section SetRatesProceeds.

Context {Hex : Type} (hexlify : list Z -> Hex) (chain : Chain Hex).

Hypothesis chain_indices : forall t, exists a f, getCompactData chain t = Some (a, f) /\ 0 <= f < 14.

Lemma dict_get_set {V} (d : dict Z V) (k k' : Z) (v : V) :
  dict_get (dict_set d k v) k' = if k =? k' then Some v else dict_get d k'.
Proof.
  induction d as [|[k0 v0] d IH]; simpl.
  - reflexivity.
  - destruct (k0 =? k) eqn:E; simpl.
    + apply Z.eqb_eq in E. subst k0. destruct (k =? k'); reflexivity.
    + rewrite IH. destruct (k0 =? k') eqn:E'; [|reflexivity].
      apply Z.eqb_eq in E'. subst k'. rewrite Z.eqb_sym, E. reflexivity.
Qed.

Lemma indices_in_range_set (d : dict Z TokenIndex) (t : address) (ti : TokenIndex) :
  indices_in_range d -> 0 <= field_idx ti < 14 -> indices_in_range (dict_set d t ti).
Proof.
  intros Hd Hti t' ti'. rewrite dict_get_set. destruct (t =? t').
  - intros H. injection H as <-. exact Hti.
  - apply Hd.
Qed.

Lemma get_token_indices_succeeds (t : address) (s : St Hex) :
  indices_in_range (token_indices_cache s) ->
  exists ti s', get_token_indices chain t s = (Some ti, s') /\
    0 <= field_idx ti < 14 /\ indices_in_range (token_indices_cache s').
Proof.
  intros Hc. unfold get_token_indices, get_cache, put_cache, bind, emit, lift, ret. simpl.
  destruct (dict_get (token_indices_cache s) t) as [ti|] eqn:E.
  - exists ti, s. split; [reflexivity|]. split; [exact (Hc t ti E) | exact Hc].
  - destruct (chain_indices t) as [a [f [Ha Hf]]]. rewrite Ha.
    eexists; eexists. split; [reflexivity|]. split; [exact Hf|].
    apply indices_in_range_set; assumption.
Qed.

Lemma index_tokens_succeeds (ts : list address) (d : dict Z TokenIndex) (s : St Hex) :
  indices_in_range (token_indices_cache s) -> indices_in_range d ->
  exists d' s', index_tokens chain ts d s = (Some d', s') /\ indices_in_range d' /\
    forall t, In t ts \/ dict_get d t <> None -> dict_get d' t <> None.
Proof.
  revert d s. induction ts as [|t ts IH]; intros d s Hc Hd; simpl.
  - exists d, s. split; [reflexivity|]. split; [exact Hd|]. intros t [[] | H]; exact H.
  - destruct (get_token_indices_succeeds t s Hc) as [ti [s1 [E [Hti Hc1]]]].
    rewrite (bind_Some _ _ _ _ _ E).
    destruct (IH (dict_set d t ti) s1 Hc1 (indices_in_range_set d t ti Hd Hti))
      as [d' [s' [E' [Hd' Hin]]]].
    exists d', s'. split; [exact E'|]. split; [exact Hd'|].
    intros t' Ht'. apply Hin. rewrite dict_get_set.
    destruct (t =? t') eqn:Et; [right; discriminate|].
    destruct Ht' as [[-> | Ht'] | Ht']; [rewrite Z.eqb_refl in Et; discriminate | left; exact Ht' | right; exact Ht'].
Qed.

Lemma executor_map_succeeds {A B} (f : A -> M Hex B) (xs : list A) (s : St Hex) :
  Forall (fun x => forall s, exists y s', f x s = (Some y, s')) xs ->
  exists ys s', executor_map f xs s = (Some ys, s').
Proof.
  intros Hall. unfold executor_map.
  assert (Hrun : forall s, exists ys s', run_all f xs s = (map Some ys, s')).
  { induction Hall as [|x xs Hx _ IH]; intros s0; simpl.
    - exists [], s0. reflexivity.
    - destruct (Hx s0) as [y [s1 E1]]. rewrite E1.
      destruct (IH s1) as [ys [s2 E2]]. rewrite E2. exists (y :: ys), s2. reflexivity. }
  destruct (Hrun s) as [ys [s' E]]. rewrite E. exists ys, s'. f_equal.
  clear. induction ys as [|y ys IH]; simpl; [reflexivity|]. rewrite IH. reflexivity.
Qed.

End SetRatesProceeds.

Lemma priced_well_indexed {Hex : Type} (chain : Chain Hex) (ts : list address)
    (bs ss : list float) (prices : list Price) (tis : dict Z TokenIndex) :
  indices_in_range tis -> (forall t, In t ts -> dict_get tis t <> None) ->
  Forall2 (priced chain) (zip3 ts bs ss) prices -> Forall (well_indexed tis) prices.
Proof.
  intros Hr Hin H. apply Forall_forall. intros p Hp.
  assert (Hx : exists x, In x (zip3 ts bs ss) /\ priced chain x p).
  { clear Hr Hin. induction H as [|x p0 xs ps Hxp _ IH]; [destruct Hp|].
    destruct Hp as [<- | Hp]; [exists x; split; [left; reflexivity | exact Hxp]|].
    destruct (IH Hp) as [x' [Hx' Hp']]. exists x'. split; [right; exact Hx' | exact Hp']. }
  destruct Hx as [[[t b] s] [Hx [bb [bs' [cb [cs [_ [_ [_ [_ ->]]]]]]]]]].
  apply zip3_In_token in Hx. specialize (Hin t Hx). simpl.
  destruct (dict_get tis t) as [ti|] eqn:E; [|contradiction].
  exists ti. split; [unfold price_update; simpl; exact E | exact (Hr t ti E)].
Qed.

(** Traces of the token-index phase and of [build_price], and the phases
    of [set_rates] that leave the cache alone. *)

Lemma get_token_indices_step {Hex : Type} (chain : Chain Hex) (t : address)
    (s s' : St Hex) (r : option TokenIndex) :
  get_token_indices chain t s = (r, s') ->
  (exists ti, dict_get (token_indices_cache s) t = Some ti /\ r = Some ti /\ s' = s) \/
  (dict_get (token_indices_cache s) t = None /\
   ((exists a f, getCompactData chain t = Some (a, f) /\ r = Some (mkTokenIndex a f) /\
       s' = mkSt (dict_set (token_indices_cache s) t (mkTokenIndex a f))
                 (trace s ++ [ReadCompactData t])) \/
    (getCompactData chain t = None /\ r = None /\
       s' = mkSt (token_indices_cache s) (trace s ++ [ReadCompactData t])))).
Proof.
  unfold get_token_indices, get_cache, put_cache, bind, emit, lift, ret, raise. simpl.
  destruct (dict_get (token_indices_cache s) t) as [ti|] eqn:E.
  - intros H. injection H as <- <-. left. exists ti. auto.
  - destruct (getCompactData chain t) as [[a f]|] eqn:G; intros H; injection H as <- <-;
      right; split; [reflexivity | left; exists a, f; auto | reflexivity | right; auto].
Qed.

Lemma index_tokens_reads {Hex : Type} (chain : Chain Hex) (ts : list address)
    (d d' : dict Z TokenIndex) (s s' : St Hex) :
  index_tokens chain ts d s = (Some d', s') ->
  exists R, trace s' = trace s ++ map (fun t => ReadCompactData t) R /\ NoDup R /\
    (forall t, In t R <-> In t ts /\ dict_get (token_indices_cache s) t = None) /\
    (forall t ti, dict_get (token_indices_cache s) t = Some ti ->
                  dict_get (token_indices_cache s') t = Some ti) /\
    (forall t, In t ts -> dict_get d' t <> None /\
                          dict_get d' t = dict_get (token_indices_cache s') t) /\
    (forall t, ~ In t ts -> dict_get d' t = dict_get d t).
Proof.
  revert d s. induction ts as [|t ts IH]; intros d s H; simpl in H.
  - injection H as <- <-. exists []. simpl. rewrite app_nil_r.
    split; [reflexivity|]. split; [constructor|]. split; [tauto|].
    split; [auto|]. split; [intros t []|]. reflexivity.
  - destruct (get_token_indices chain t s) as [r s1] eqn:E1.
    destruct r as [ti|]; [|rewrite (bind_None _ _ _ _ E1) in H; discriminate].
    rewrite (bind_Some _ _ _ _ _ E1) in H.
    destruct (IH _ _ H) as [R [T [N [M [X [D O]]]]]]. clear IH H.
    apply get_token_indices_step in E1
      as [[ti' [E [R1 ->]]] | [E [[a [f [G [R1 ->]]]] | [_ [R1 _]]]]]; try discriminate;
      injection R1 as ->.
    + exists R. split; [exact T|]. split; [exact N|]. split.
      { intros u. rewrite M. simpl. split; [tauto|].
        intros [[<- | Hu] Hn]; [congruence | tauto]. }
      split; [exact X|]. split.
      { intros u [Et | Hu]; [subst u | exact (D u Hu)].
        destruct (in_dec Z.eq_dec t ts) as [Hin | Hin]; [exact (D t Hin)|].
        rewrite (O t Hin), dict_get_set, Z.eqb_refl, (X t ti' E).
        split; [discriminate | reflexivity]. }
      intros u Hu. rewrite (O u (fun H => Hu (or_intror H))), dict_get_set.
      destruct (t =? u) eqn:Eu; [apply Z.eqb_eq in Eu; subst; destruct Hu; left; reflexivity|].
      reflexivity.
    + simpl in *. set (ti := mkTokenIndex a f) in *.
      assert (Hc1 : dict_get (dict_set (token_indices_cache s) t ti) t = Some ti)
        by (rewrite dict_get_set, Z.eqb_refl; reflexivity).
      exists (t :: R). split; [rewrite T, <- app_assoc; reflexivity|]. split.
      { constructor; [|exact N]. intros Hin. apply M in Hin as [_ Hn]. congruence. }
      split.
      { intros u. simpl. rewrite M, dict_get_set.
        destruct (t =? u) eqn:Eu.
        - apply Z.eqb_eq in Eu. subst u. split; [intros [_ | [_ Hn]]; [|discriminate]|]; tauto.
        - assert (t <> u) by (intros ->; rewrite Z.eqb_refl in Eu; discriminate).
          split; [intros [-> | Hu]; [contradiction | tauto] | intros [[-> | Hu] Hn]; [contradiction | tauto]]. }
      split.
      { intros u tu Hu. apply X. rewrite dict_get_set.
        destruct (t =? u) eqn:Eu; [apply Z.eqb_eq in Eu; subst; congruence | exact Hu]. }
      split.
      { intros u [Et | Hu]; [subst u | exact (D u Hu)].
        destruct (in_dec Z.eq_dec t ts) as [Hin | Hin]; [exact (D t Hin)|].
        rewrite (O t Hin), dict_get_set, Z.eqb_refl, (X t ti Hc1).
        split; [discriminate | reflexivity]. }
      intros u Hu. rewrite (O u (fun H => Hu (or_intror H))), dict_get_set.
      destruct (t =? u) eqn:Eu; [apply Z.eqb_eq in Eu; subst; destruct Hu; left; reflexivity|].
      reflexivity.
Qed.

Lemma build_price_trace {Hex : Type} (chain : Chain Hex) (t : address) (buy sell : float)
    (s : St Hex) :
  let (r, s') := build_price chain t buy sell s in
  token_indices_cache s' = token_indices_cache s /\
  ((trace s' = trace s ++ [ReadBasicRate t true] /\ r = None /\
    match getBasicRate chain t true with
    | Some bb => get_compact_data buy bb = None
    | None => True
    end) \/
   (trace s' = trace s ++ [ReadBasicRate t true; ReadBasicRate t false] /\
    exists bb cb, getBasicRate chain t true = Some bb /\ get_compact_data buy bb = Some cb)).
Proof.
  unfold build_price, get_basic_rate, bind, emit, lift, ret, raise. simpl.
  destruct (getBasicRate chain t true) as [bb|] eqn:E1;
    [destruct (get_compact_data buy bb) as [cb|] eqn:E2|]; simpl;
    [destruct (getBasicRate chain t false) as [bs|] eqn:E3;
       [destruct (get_compact_data sell bs) as [cs|] eqn:E4|] | |];
    simpl; (split; [reflexivity|]); rewrite <- ?app_assoc; simpl;
    solve [left; auto | right; split; [reflexivity | eauto]].
Qed.

Section KeepsCache.

Context {Hex : Type} (chain : Chain Hex).

Lemma keeps_cache_ret {A} (a : A) : keeps_cache (Hex := Hex) (ret a).
Proof. intros s. split; [reflexivity|]. exists []. rewrite app_nil_r. split; [reflexivity | constructor]. Qed.

Lemma keeps_cache_lift {A} (o : option A) : keeps_cache (Hex := Hex) (lift o).
Proof. destruct o; [apply keeps_cache_ret|]. intros s. split; [reflexivity|].
  exists []. rewrite app_nil_r. split; [reflexivity | constructor]. Qed.

Lemma keeps_cache_emit (e : Event Hex) : is_index_read e = false -> keeps_cache (emit e).
Proof. intros He s. split; [reflexivity|]. exists [e]. split; [reflexivity | repeat constructor; exact He]. Qed.

Lemma keeps_cache_bind {A B} (m : M Hex A) (f : A -> M Hex B) :
  keeps_cache m -> (forall a, keeps_cache (f a)) -> keeps_cache (bind m f).
Proof.
  intros Hm Hf s. unfold bind. specialize (Hm s). destruct (m s) as [[a|] s1]; [|exact Hm].
  destruct Hm as [C1 [evs1 [T1 F1]]]. specialize (Hf a s1). destruct (f a s1) as [r s2].
  destruct Hf as [C2 [evs2 [T2 F2]]]. split; [congruence|].
  exists (evs1 ++ evs2). rewrite T2, T1, app_assoc. split; [reflexivity | apply Forall_app; auto].
Qed.

Lemma keeps_cache_build_price (t : address) (b s : float) :
  keeps_cache (build_price chain t b s).
Proof.
  intros st. pose proof (build_price_trace chain t b s st) as H.
  destruct (build_price chain t b s st) as [r st']. destruct H as [C [[T _] | [T _]]];
    (split; [exact C|]); eexists; (split; [exact T|]); repeat constructor.
Qed.

Lemma keeps_cache_executor_map {A B} (f : A -> M Hex B) (xs : list A) :
  (forall x, keeps_cache (f x)) -> keeps_cache (executor_map f xs).
Proof.
  intros Hf s. unfold executor_map.
  assert (Hrun : forall s, let (_, s') := run_all f xs s in
    token_indices_cache s' = token_indices_cache s /\
    exists evs, trace s' = trace s ++ evs /\ Forall (fun e => is_index_read e = false) evs).
  { induction xs as [|x xs IH]; intros s0; simpl.
    - split; [reflexivity|]. exists []. rewrite app_nil_r. split; [reflexivity | constructor].
    - specialize (Hf x s0). destruct (f x s0) as [r s1]. destruct Hf as [C1 [evs1 [T1 F1]]].
      specialize (IH s1). destruct (run_all f xs s1) as [rs s2]. destruct IH as [C2 [evs2 [T2 F2]]].
      split; [congruence|]. exists (evs1 ++ evs2). rewrite T2, T1, app_assoc.
      split; [reflexivity | apply Forall_app; auto]. }
  specialize (Hrun s). destruct (run_all f xs s) as [rs s']. exact Hrun.
Qed.

Lemma keeps_cache_read_block_number : keeps_cache (read_block_number chain).
Proof. apply keeps_cache_bind; [apply keeps_cache_emit; reflexivity | intros; apply keeps_cache_lift]. Qed.

Lemma keeps_cache_submit (tx : Tx Hex) : keeps_cache (submit chain tx).
Proof. apply keeps_cache_bind; [apply keeps_cache_emit; reflexivity | intros; apply keeps_cache_lift]. Qed.

Lemma index_tokens_all_cached (ts : list address) (d : dict Z TokenIndex) (s : St Hex) :
  (forall t, In t ts -> dict_get (token_indices_cache s) t <> None) ->
  exists d', forall chain' : Chain Hex, index_tokens chain' ts d s = (Some d', s).
Proof.
  revert d. induction ts as [|t ts IH]; intros d Hc.
  - exists d. reflexivity.
  - destruct (dict_get (token_indices_cache s) t) as [ti|] eqn:E;
      [|exfalso; exact (Hc t (or_introl eq_refl) E)].
    destruct (IH (dict_set d t ti) (fun u Hu => Hc u (or_intror Hu))) as [d' Hd'].
    exists d'. intros chain'. simpl.
    assert (Hg : get_token_indices chain' t s = (Some ti, s))
      by (unfold get_token_indices, get_cache, bind; rewrite E; reflexivity).
    rewrite (bind_Some _ _ _ _ _ Hg). apply Hd'.
Qed.

End KeepsCache.

(** A completed [executor_map] over [build_price] has read both bases of
    every token it priced. *)
Lemma run_all_build_price_reads {Hex : Type} (chain : Chain Hex)
    (xs : list (address * float * float)) (s s' : St Hex) (rs : list (option Price)) :
  run_all (fun p : address * float * float => let '(t, b, sr) := p in build_price chain t b sr)
    xs s = (rs, s') ->
  ~ In None rs ->
  forall t b sr, In (t, b, sr) xs ->
    In (ReadBasicRate t true) (trace s') /\ In (ReadBasicRate t false) (trace s').
Proof.
  set (f := fun p : address * float * float => let '(t, b, sr) := p in build_price chain t b sr).
  revert s rs. induction xs as [|[[t0 b0] sr0] xs IH]; intros s rs H Hn t b sr Hin;
    [destruct Hin|].
  simpl in H. pose proof (build_price_trace chain t0 b0 sr0 s) as Tr.
  change (f (t0, b0, sr0) s) with (build_price chain t0 b0 sr0 s) in H.
  destruct (build_price chain t0 b0 sr0 s) as [r1 s1].
  assert (Kf : forall x, keeps_cache (f x))
    by (intros [[t1 b1] sr1]; apply keeps_cache_build_price).
  pose proof (keeps_cache_executor_map f xs Kf s1) as K.
  unfold executor_map in K.
  destruct (run_all f xs s1) as [rs' s2] eqn:E. injection H as <- <-.
  destruct K as [_ [evs [T _]]].
  destruct Hin as [Hx | Hin].
  - injection Hx as <- <- <-.
    destruct Tr as [_ [[_ [-> _]] | [T1 _]]]; [destruct Hn; left; reflexivity|].
    rewrite T, T1, <- app_assoc. split; apply in_app_iff; right; simpl; auto.
  - exact (IH s1 rs' E (fun H => Hn (or_intror H)) t b sr Hin).
Qed.

Lemma executor_map_build_price_reads {Hex : Type} (chain : Chain Hex)
    (xs : list (address * float * float)) (s s' : St Hex) (prices : list Price) :
  executor_map (fun p : address * float * float => let '(t, b, sr) := p in build_price chain t b sr)
    xs s = (Some prices, s') ->
  forall t b sr, In (t, b, sr) xs ->
    In (ReadBasicRate t true) (trace s') /\ In (ReadBasicRate t false) (trace s').
Proof.
  unfold executor_map. intros H.
  destruct (run_all _ xs s) as [rs s2] eqn:E. injection H as Hs <-.
  exact (run_all_build_price_reads chain xs s s2 rs E (all_some_no_None rs prices Hs)).
Qed.

(** After its pricing phase, [set_rates] only appends to the trace. *)
Lemma set_rates_trace_after_prices {Hex : Type} (hexlify : list Z -> Hex)
    (chain : Chain Hex) (ts : list address) (bs ss : list float) (s s1 s2 st : St Hex)
    (tis : dict Z TokenIndex) (prices : list Price) (r : option Z) :
  index_tokens chain ts [] s = (Some tis, s1) ->
  executor_map (fun p : address * float * float => let '(t, b, sr) := p in build_price chain t b sr)
    (zip3 ts bs ss) s1 = (Some prices, s2) ->
  set_rates hexlify chain ts bs ss s = (r, st) ->
  exists evs, trace st = trace s2 ++ evs.
Proof.
  intros E1 E2 H. unfold set_rates in H.
  rewrite (bind_Some _ _ _ _ _ E1) in H. rewrite (bind_Some _ _ _ _ _ E2) in H.
  cbv beta zeta in H.
  match type of H with ?m s2 = _ => assert (K : keeps_cache m) end.
  { apply keeps_cache_bind; [apply keeps_cache_lift|].
    intros [[cb cs] idx].
    destruct (map token (filter base_changed prices));
      (apply keeps_cache_bind; [apply keeps_cache_read_block_number | intros; apply keeps_cache_submit]). }
  specialize (K s2). rewrite H in K. destruct K as [_ [evs [T _]]]. exists evs. exact T.
Qed.

(** C7 (amended): [set_rates] validates nothing.  For token, buy-rate and
    sell-rate lists of any lengths, and rates of any sign, it pairs the
    lists as Python's [zip] does (up to the shortest) and, on a chain that
    answers every read (with field indices in 0..13) and for rates whose
    compaction does not raise, goes through its chain reads to exactly one
    submission.  Starting from an empty cache, the calls before that
    submission contain no other one, and include the token-index read of
    every listed token and both base-rate reads of every paired token. *)
Theorem set_rates_proceeds_without_validation {Hex : Type} (hexlify : list Z -> Hex)
    (chain : Chain Hex) (token_addresses : list address) (buy_rates sell_rates : list float)
    (r : option Z) (st : St Hex) :
  (forall t, exists a f, getCompactData chain t = Some (a, f) /\ 0 <= f < 14) ->
  (forall t b, getBasicRate chain t b <> None) ->
  blockNumber chain <> None ->
  Forall (fun x => let '(t, b, s) := x in
            forall rb rs, getBasicRate chain t true = Some rb ->
              getBasicRate chain t false = Some rs ->
              get_compact_data b rb <> None /\ get_compact_data s rs <> None)
    (zip3 token_addresses buy_rates sell_rates) ->
  set_rates hexlify chain token_addresses buy_rates sell_rates (mkSt [] []) = (r, st) ->
  exists evs tx prices,
    trace st = evs ++ [ReadBlockNumber; Submit tx] /\
    Forall (fun e => is_submit e = false) evs /\
    (forall t, In t token_addresses -> In (ReadCompactData t) evs) /\
    (forall t b s, In (t, b, s) (zip3 token_addresses buy_rates sell_rates) ->
       In (ReadBasicRate t true) evs /\ In (ReadBasicRate t false) evs) /\
    r = call_contract_func chain tx /\
    Forall2 (priced chain) (zip3 token_addresses buy_rates sell_rates) prices /\
    length prices
      = Nat.min (length token_addresses) (Nat.min (length buy_rates) (length sell_rates)).
Proof.
  intros Hidx Hrate Hblk Hcomp H.
  destruct (index_tokens_succeeds chain Hidx token_addresses [] (mkSt [] []))
    as [tis [s1 [E1 [Htis Hin]]]];
    [intros t ti Ht; discriminate | intros t ti Ht; discriminate |].
  set (f := fun p : address * float * float => let '(t, b, s) := p in build_price chain t b s).
  destruct (executor_map_succeeds f (zip3 token_addresses buy_rates sell_rates) s1)
    as [prices [s2 E2]].
  { eapply Forall_impl; [|exact Hcomp]. intros [[t b] s] Hx s0. simpl.
    unfold build_price, get_basic_rate, bind, emit, lift, ret. simpl.
    destruct (getBasicRate chain t true) as [rb|] eqn:Eb; [|exfalso; exact (Hrate t true Eb)].
    destruct (getBasicRate chain t false) as [rs|] eqn:Es; [|exfalso; exact (Hrate t false Es)].
    destruct (Hx rb rs eq_refl eq_refl) as [Hb Hs].
    destruct (get_compact_data b rb); [|contradiction].
    destruct (get_compact_data s rs); [|contradiction].
    eexists; eexists; reflexivity. }
  pose proof (priced_results chain _ _ _ _ (executor_map_results _ _ _ _ _ E2)) as Hpr.
  assert (Hwi : Forall (well_indexed tis) prices)
    by (apply (priced_well_indexed chain token_addresses buy_rates sell_rates);
        [exact Htis | intros t Ht; apply Hin; left; exact Ht | exact Hpr]).
  pose proof (set_rates_trace_after_prices hexlify chain _ _ _ _ _ _ _ _ _ _ E1 E2 H)
    as [evs2 T2].
  destruct (index_tokens_reads chain token_addresses [] tis (mkSt [] []) s1 E1)
    as [R [T1 [_ [HR _]]]].
  pose proof (executor_map_build_price_reads chain _ s1 s2 prices E2) as Hbr.
  assert (Kf : forall x, keeps_cache (f x))
    by (intros [[t b] sr]; apply keeps_cache_build_price).
  pose proof (keeps_cache_executor_map f (zip3 token_addresses buy_rates sell_rates) Kf s1)
    as K.
  rewrite E2 in K. destruct K as [_ [evs1 [T12 _]]].
  destruct (blockNumber chain) as [blk|] eqn:E4; [|contradiction].
  assert (Hsub : exists tx, In (Submit tx) (trace st)).
  { pose proof H as H'. unfold set_rates in H'.
    rewrite (bind_Some _ _ _ _ _ E1) in H'. rewrite (bind_Some _ _ _ _ _ E2) in H'.
    unfold build_compact_price in H' at 1.
    pose proof (group_prices_batch tis prices [] Hwi) as E3.
    change (batch_so_far tis []) with (@nil (Z * (list Z * list Z))) in E3.
    rewrite E3 in H'. simpl in H'.
    destruct (filter base_changed prices) as [|p0 ps0];
      cbv [read_block_number submit bind emit lift ret raise] in H'; rewrite E4 in H';
      simpl in H'; rewrite option_result in H'; injection H' as _ <-; simpl;
      eexists; apply in_app_iff; right; left; reflexivity. }
  apply set_rates_outcome in H as [[_ Hns] | [evs [tx [prices' [_ [_ [_ [_ [blk' [Ht [Hns [_ [Hr [_ [Hpr' _]]]]]]]]]]]]]]].
  - exfalso. destruct Hsub as [tx Htx]. rewrite Forall_forall in Hns.
    specialize (Hns _ Htx). discriminate.
  - assert (Hev : forall e, In e (trace st) ->
                    In e evs \/ e = ReadBlockNumber \/ e = Submit tx).
    { intros e He. rewrite Ht in He.
      apply in_app_iff in He as [He | [<- | [<- | []]]]; auto. }
    exists evs, tx, prices'. split; [exact Ht|]. split; [exact Hns|]. split.
    { intros t Ht0.
      assert (Hin1 : In (ReadCompactData t) (trace st)).
      { rewrite T2, T12, T1. apply in_app_iff; left. apply in_app_iff; left.
        apply in_app_iff; right. apply in_map. apply HR. split; [exact Ht0 | reflexivity]. }
      destruct (Hev _ Hin1) as [X | [X | X]]; [exact X | discriminate | discriminate]. }
    split.
    { intros t b sr Hx. destruct (Hbr t b sr Hx) as [Hb Hs].
      assert (Hb' : In (ReadBasicRate t true) (trace st))
        by (rewrite T2; apply in_app_iff; left; exact Hb).
      assert (Hs' : In (ReadBasicRate t false) (trace st))
        by (rewrite T2; apply in_app_iff; left; exact Hs).
      destruct (Hev _ Hb') as [X | [X | X]]; [|discriminate | discriminate].
      destruct (Hev _ Hs') as [Y | [Y | Y]]; [|discriminate | discriminate].
      split; assumption. }
    split; [exact Hr|]. split; [exact Hpr'|].
    rewrite <- zip3_length. symmetry. exact (Forall2_length Hpr').
Qed.

Lemma set_rates_proceeds_without_validation_witness :
  exists r st,
  set_rates (fun l => l) example_total_chain [1; 2] [of_Z 105; of_Z 150] [of_Z 100]
    (mkSt [] []) = (r, st) /\
  exists evs tx prices,
    trace st = evs ++ [ReadBlockNumber; Submit tx] /\
    Forall (fun e => is_submit e = false) evs /\
    (forall t, In t [1; 2] -> In (ReadCompactData t) evs) /\
    (forall t b s, In (t, b, s) (zip3 [1; 2] [of_Z 105; of_Z 150] [of_Z 100]) ->
       In (ReadBasicRate t true) evs /\ In (ReadBasicRate t false) evs) /\
    r = call_contract_func example_total_chain tx /\
    Forall2 (priced example_total_chain)
      (zip3 [1; 2] [of_Z 105; of_Z 150] [of_Z 100]) prices /\
    length prices = Nat.min (length [1; 2])
                      (Nat.min (length [of_Z 105; of_Z 150]) (length [of_Z 100])).
Proof.
  eexists; eexists. split; [vm_compute; reflexivity|].
  apply (set_rates_proceeds_without_validation (fun l => l) example_total_chain
           [1; 2] [of_Z 105; of_Z 150] [of_Z 100]).
  - intros t. exists 0, (if t =? 2 then 5 else 3). split; [reflexivity|].
    destruct (t =? 2); lia.
  - intros t b. discriminate.
  - discriminate.
  - constructor; [|constructor]. intros rb rs Hb Hs.
    injection Hb as <-. injection Hs as <-. split; vm_compute; discriminate.
  - vm_compute. reflexivity.
Defined.

(** ** Compaction of an unchanged rate and of non-finite values *)

Lemma div_eucl_mul_pow53 (m : positive) :
  Z.div_eucl (Z.pos m * 2 ^ 53) (Z.pos m) = (2 ^ 53, 0).
Proof.
  rewrite (surjective_pairing (Z.div_eucl _ _)).
  change (fst (Z.div_eucl (Z.pos m * 2 ^ 53) (Z.pos m))) with (Z.pos m * 2 ^ 53 / Z.pos m).
  change (snd (Z.div_eucl (Z.pos m * 2 ^ 53) (Z.pos m))) with (Z.pos m * 2 ^ 53 mod Z.pos m).
  rewrite Z.mul_comm, Z.div_mul, Z.mod_mul by lia. reflexivity.
Qed.

(** [x / x] is exactly [1.0] for every finite non-zero float. *)
Lemma div_self (s : bool) (m : positive) (e : Z) :
  div (S754_finite s m e) (S754_finite s m e) = of_Z 1.
Proof.
  unfold div, SFdiv, SFdiv_core_binary.
  rewrite !Z.sub_diag. cbv zeta.
  replace (Z.min (fexp prec emax 0) 0) with (-53) by reflexivity.
  change (0 - -53) with 53.
  rewrite Z.shiftl_mul_pow2 by lia. rewrite div_eucl_mul_pow53.
  replace (xorb s s) with false by (destruct s; reflexivity).
  replace (new_location (Z.pos m) 0) with loc_Exact
    by (unfold new_location, new_location_even, new_location_odd;
        destruct (Z.even (Z.pos m)); reflexivity).
  vm_compute. reflexivity.
Qed.

Lemma get_compact_data_self (b : float) :
  is_finite b = true -> get_compact_data b b = Some (mkCompactData b 0).
Proof.
  destruct b as [s | s | | s m e]; try discriminate; intros _.
  - destruct s; reflexivity.
  - unfold get_compact_data, delta_bps. rewrite div_self. destruct s; reflexivity.
Qed.

(** X1: a rate equal to its recorded base, for a finite base, compacts to
    the base with delta byte 0 (also for a zero base, which takes the reset
    branch with the same value). *)
Theorem get_compact_data_same_rate (b : float) :
  is_finite b = true -> get_compact_data b b = Some (mkCompactData b 0).
Proof. exact (get_compact_data_self b). Qed.

Lemma get_compact_data_same_rate_witness :
  is_finite (of_decimal 987 1) = true /\
  get_compact_data (of_decimal 987 1) (of_decimal 987 1)
    = Some (mkCompactData (of_decimal 987 1) 0).
Proof.
  split; [vm_compute; reflexivity|].
  apply get_compact_data_same_rate. vm_compute. reflexivity.
Defined.

(** X2: [build_price] called with the rates already recorded on chain
    (finite ones) reports no base change: both bases are kept and both
    compact bytes are 0. *)
Theorem build_price_same_rates {Hex : Type} (chain : Chain Hex) (t : address)
    (bb bs : float) (s : St Hex) :
  getBasicRate chain t true = Some bb -> getBasicRate chain t false = Some bs ->
  is_finite bb = true -> is_finite bs = true ->
  fst (build_price chain t bb bs s) = Some (mkPrice t bb bs 0 0 false).
Proof.
  intros Hb Hs Fb Fs.
  unfold build_price, get_basic_rate, bind, emit, lift, ret. simpl.
  rewrite Hb, (get_compact_data_self bb Fb), Hs, (get_compact_data_self bs Fs).
  unfold price_update. simpl.
  rewrite !eqb_refl_not_nan by (intros ->; discriminate). reflexivity.
Qed.

Lemma build_price_same_rates_witness :
  getBasicRate example_chain 1 true = Some (of_Z 100) /\
  getBasicRate example_chain 1 false = Some (of_Z 100) /\
  is_finite (of_Z 100) = true /\ is_finite (of_Z 100) = true /\
  fst (build_price example_chain 1 (of_Z 100) (of_Z 100) (mkSt [] []))
    = Some (mkPrice 1 (of_Z 100) (of_Z 100) 0 0 false).
Proof.
  split; [reflexivity|]. split; [reflexivity|].
  split; [vm_compute; reflexivity|]. split; [vm_compute; reflexivity|].
  apply build_price_same_rates; [reflexivity | reflexivity | vm_compute; reflexivity ..].
Defined.

(** X3: a rate that is infinite or NaN makes [get_compact_data] raise
    ([int()] of an infinite or NaN delta) whenever the base is non-zero;
    with a zero base it is passed through as the new base. *)
Theorem get_compact_data_nonfinite_rate (rate b : float) :
  is_finite rate = false ->
  get_compact_data rate b = (if eqb b (of_Z 0) then Some (mkCompactData rate 0) else None).
Proof.
  destruct rate as [sr | sr | | sr mr er]; try discriminate; intros _;
    destruct b as [sb | sb | | sb mb eb]; try destruct sr; try destruct sb; reflexivity.
Qed.

Lemma get_compact_data_nonfinite_rate_witness :
  is_finite (S754_infinity false) = false /\
  get_compact_data (S754_infinity false) (of_Z 100)
    = (if eqb (of_Z 100) (of_Z 0) then Some (mkCompactData (S754_infinity false) 0) else None).
Proof. split; [reflexivity | apply get_compact_data_nonfinite_rate; reflexivity]. Defined.

(** X4: a NaN base makes [get_compact_data] raise for every rate; an
    infinite base resets to any finite rate (the delta is -1000) and raises
    for a non-finite one. *)
Theorem get_compact_data_nonfinite_base :
  (forall rate, get_compact_data rate S754_nan = None) /\
  (forall rate sb, get_compact_data rate (S754_infinity sb)
     = (if is_finite rate then Some (mkCompactData rate 0) else None)).
Proof.
  split.
  - intros [sr | sr | | sr mr er]; reflexivity.
  - intros [sr | sr | | sr mr er] sb; destruct sb; try destruct sr; reflexivity.
Qed.

(** ** The token-index cache *)

(** X5: once [get_token_indices] has returned an index for a token, every
    later lookup of that token returns the same index without any chain
    read and without changing the client's state, whatever the chain then
    answers; the lookup leaves the cache entries of other tokens as they
    were. *)
Theorem get_token_indices_cached {Hex : Type} (chain chain' : Chain Hex) (t : address)
    (s s' : St Hex) (ti : TokenIndex) :
  get_token_indices chain t s = (Some ti, s') ->
  get_token_indices chain' t s' = (Some ti, s') /\
  dict_get (token_indices_cache s') t = Some ti /\
  (forall u, u <> t -> dict_get (token_indices_cache s') u = dict_get (token_indices_cache s) u).
Proof.
  intros H. apply get_token_indices_step in H
    as [[ti' [E [R ->]]] | [E [[a [f [G [R ->]]]] | [_ [R _]]]]]; try discriminate;
    injection R as ->.
  - unfold get_token_indices, get_cache, bind. simpl. rewrite E. auto.
  - assert (Hc : dict_get (dict_set (token_indices_cache s) t (mkTokenIndex a f)) t
                 = Some (mkTokenIndex a f)) by (rewrite dict_get_set, Z.eqb_refl; reflexivity).
    split; [|split; [exact Hc|]].
    + unfold get_token_indices, get_cache, bind. simpl. rewrite Hc. reflexivity.
    + intros u Hu. simpl. rewrite dict_get_set.
      destruct (t =? u) eqn:Eu; [apply Z.eqb_eq in Eu; congruence | reflexivity].
Qed.

Lemma get_token_indices_cached_witness :
  get_token_indices example_chain 1 (mkSt [] [])
    = (Some (mkTokenIndex 0 3), mkSt [(1, mkTokenIndex 0 3)] [ReadCompactData 1]) /\
  get_token_indices example_total_chain 1 (mkSt [(1, mkTokenIndex 0 3)] [ReadCompactData 1])
    = (Some (mkTokenIndex 0 3), mkSt [(1, mkTokenIndex 0 3)] [ReadCompactData 1]) /\
  dict_get (token_indices_cache (mkSt (Hex := list Z) [(1, mkTokenIndex 0 3)] [ReadCompactData 1])) 1
    = Some (mkTokenIndex 0 3) /\
  (forall u, u <> 1 ->
     dict_get (token_indices_cache (mkSt (Hex := list Z) [(1, mkTokenIndex 0 3)] [ReadCompactData 1])) u
     = dict_get (token_indices_cache (mkSt (Hex := list Z) [] [])) u).
Proof.
  assert (H : get_token_indices example_chain 1 (mkSt [] [])
    = (Some (mkTokenIndex 0 3), mkSt [(1, mkTokenIndex 0 3)] [ReadCompactData 1]))
    by (vm_compute; reflexivity).
  split; [exact H|].
  exact (get_token_indices_cached example_chain example_total_chain 1 _ _ _ H).
Defined.

(** X6: a token-index lookup whose chain read raises caches nothing: the
    cache is unchanged, so the next lookup of that token reads the chain
    again. *)
Theorem get_token_indices_failure_uncached {Hex : Type} (chain : Chain Hex) (t : address)
    (s s' : St Hex) :
  get_token_indices chain t s = (None, s') ->
  getCompactData chain t = None /\
  token_indices_cache s' = token_indices_cache s /\
  trace s' = trace s ++ [ReadCompactData t] /\
  fst (get_token_indices chain t s') = None /\
  trace (snd (get_token_indices chain t s')) = trace s' ++ [ReadCompactData t].
Proof.
  intros H. apply get_token_indices_step in H
    as [[ti [_ [R _]]] | [E [[a [f [_ [R _]]]] | [G [_ ->]]]]]; try discriminate.
  simpl. split; [exact G|]. split; [reflexivity|]. split; [reflexivity|].
  unfold get_token_indices, get_cache, put_cache, bind, emit, lift, raise. simpl.
  rewrite E, G. split; reflexivity.
Qed.

Lemma get_token_indices_failure_uncached_witness :
  get_token_indices example_chain 3 (mkSt [] []) = (None, mkSt [] [ReadCompactData 3]) /\
  getCompactData example_chain 3 = None /\
  token_indices_cache (mkSt (Hex := list Z) [] [ReadCompactData 3])
    = token_indices_cache (mkSt (Hex := list Z) [] []) /\
  trace (mkSt (Hex := list Z) [] [ReadCompactData 3])
    = trace (mkSt (Hex := list Z) [] []) ++ [ReadCompactData 3] /\
  fst (get_token_indices example_chain 3 (mkSt [] [ReadCompactData 3])) = None /\
  trace (snd (get_token_indices example_chain 3 (mkSt [] [ReadCompactData 3])))
    = trace (mkSt (Hex := list Z) [] [ReadCompactData 3]) ++ [ReadCompactData 3].
Proof.
  assert (H : get_token_indices example_chain 3 (mkSt [] []) = (None, mkSt [] [ReadCompactData 3]))
    by (vm_compute; reflexivity).
  split; [exact H|].
  exact (get_token_indices_failure_uncached example_chain 3 _ _ H).
Defined.

(** X7: when the token-index phase of [set_rates] (the dict comprehension
    over [get_token_indices]) completes, it has read the chain once for each
    distinct token that was not yet cached, and never for a cached one, even
    when a token is listed several times; the cache only grows, and the
    resulting dict maps every listed token to its cached index. *)
Theorem index_tokens_reads_once {Hex : Type} (chain : Chain Hex) (ts : list address)
    (d' : dict Z TokenIndex) (s s' : St Hex) :
  index_tokens chain ts [] s = (Some d', s') ->
  exists R, trace s' = trace s ++ map (fun t => ReadCompactData t) R /\ NoDup R /\
    (forall t, In t R <-> In t ts /\ dict_get (token_indices_cache s) t = None) /\
    (forall t ti, dict_get (token_indices_cache s) t = Some ti ->
                  dict_get (token_indices_cache s') t = Some ti) /\
    (forall t, In t ts -> dict_get d' t <> None /\
                          dict_get d' t = dict_get (token_indices_cache s') t).
Proof.
  intros H. destruct (index_tokens_reads chain ts [] d' s s' H) as [R [T [N [M [X [D _]]]]]].
  exists R. auto.
Qed.

Lemma index_tokens_reads_once_witness :
  exists d' s',
  index_tokens example_chain [1; 2; 1] [] (mkSt [(2, mkTokenIndex 0 5)] []) = (Some d', s') /\
  exists R, trace s' = trace (mkSt (Hex := list Z) [(2, mkTokenIndex 0 5)] [])
                       ++ map (fun t => ReadCompactData t) R /\ NoDup R /\
    (forall t, In t R <-> In t [1; 2; 1] /\
       dict_get (token_indices_cache (mkSt (Hex := list Z) [(2, mkTokenIndex 0 5)] [])) t = None) /\
    (forall t ti, dict_get (token_indices_cache (mkSt (Hex := list Z) [(2, mkTokenIndex 0 5)] [])) t
                    = Some ti ->
                  dict_get (token_indices_cache s') t = Some ti) /\
    (forall t, In t [1; 2; 1] -> dict_get d' t <> None /\
                          dict_get d' t = dict_get (token_indices_cache s') t).
Proof.
  eexists; eexists.
  assert (H : index_tokens example_chain [1; 2; 1] [] (mkSt [(2, mkTokenIndex 0 5)] [])
    = (Some [(1, mkTokenIndex 0 3); (2, mkTokenIndex 0 5)],
       mkSt [(2, mkTokenIndex 0 5); (1, mkTokenIndex 0 3)] [ReadCompactData 1]))
    by (vm_compute; reflexivity).
  split; [exact H|].
  exact (index_tokens_reads_once example_chain [1; 2; 1] _ _ _ H).
Defined.

(** ** Reads of [build_price] and the cache across [set_rates] *)

(** X11: [build_price] never touches the token-index cache and reads the
    chain at most twice: the buy base first, then the sell base only when
    the buy leg was read and compacted without raising.  When only the buy
    base is read the call raises; when the sell base is read the buy base
    was returned and its compaction succeeded. *)
Theorem build_price_reads {Hex : Type} (chain : Chain Hex) (t : address) (buy sell : float)
    (s : St Hex) :
  let (r, s') := build_price chain t buy sell s in
  token_indices_cache s' = token_indices_cache s /\
  ((trace s' = trace s ++ [ReadBasicRate t true] /\ r = None /\
    match getBasicRate chain t true with
    | Some bb => get_compact_data buy bb = None
    | None => True
    end) \/
   (trace s' = trace s ++ [ReadBasicRate t true; ReadBasicRate t false] /\
    exists bb cb, getBasicRate chain t true = Some bb /\ get_compact_data buy bb = Some cb)).
Proof. exact (build_price_trace chain t buy sell s). Qed.

(** X8: the token-index cache is never refreshed.  When every token of a
    [set_rates] call is already cached, the call gives the same result and
    the same interactions whatever the chain now answers for
    [getCompactData]; it leaves the cache as it is and makes no token-index
    read. *)
Theorem set_rates_cached_indices {Hex : Type} (hexlify : list Z -> Hex) (chain : Chain Hex)
    (g : address -> option (Z * Z)) (ts : list address) (bs ss : list float)
    (c : dict Z TokenIndex) (tr : list (Event Hex)) :
  (forall t, In t ts -> dict_get c t <> None) ->
  set_rates hexlify (mkChain g (getBasicRate chain) (blockNumber chain) (call_contract_func chain))
    ts bs ss (mkSt c tr)
  = set_rates hexlify chain ts bs ss (mkSt c tr) /\
  (let (_, st) := set_rates hexlify chain ts bs ss (mkSt c tr) in
   token_indices_cache st = c /\
   exists evs, trace st = tr ++ evs /\ Forall (fun e => is_index_read e = false) evs).
Proof.
  intros Hc.
  destruct (index_tokens_all_cached ts [] (mkSt c tr) Hc) as [d' Hd].
  unfold set_rates.
  rewrite (bind_Some _ _ _ _ _ (Hd (mkChain g (getBasicRate chain) (blockNumber chain)
                                         (call_contract_func chain)))).
  rewrite (bind_Some _ _ _ _ _ (Hd chain)).
  split; [reflexivity|].
  match goal with |- let (_, _) := ?m (mkSt c tr) in _ => assert (K : keeps_cache m) end.
  { apply keeps_cache_bind;
      [apply keeps_cache_executor_map; intros [[t b] s]; apply keeps_cache_build_price|].
    intros prices. cbv zeta. apply keeps_cache_bind; [apply keeps_cache_lift|].
    intros [[cb cs] idx].
    destruct (map token (filter base_changed prices));
      (apply keeps_cache_bind; [apply keeps_cache_read_block_number | intros; apply keeps_cache_submit]). }
  specialize (K (mkSt c tr)).
  match goal with |- let (_, _) := ?m (mkSt c tr) in _ => destruct (m (mkSt c tr)) as [r st] end.
  exact K.
Qed.

Lemma set_rates_cached_indices_witness :
  (forall t, In t [1; 2] ->
     dict_get [(1, mkTokenIndex 0 3); (2, mkTokenIndex 0 5)] t <> None) /\
  set_rates (fun l => l) (mkChain (fun _ => None) (getBasicRate example_chain)
                            (blockNumber example_chain) (call_contract_func example_chain))
    [1; 2] [of_Z 105; of_Z 150] [of_Z 100; of_Z 99]
    (mkSt [(1, mkTokenIndex 0 3); (2, mkTokenIndex 0 5)] [])
  = set_rates (fun l => l) example_chain [1; 2] [of_Z 105; of_Z 150] [of_Z 100; of_Z 99]
      (mkSt [(1, mkTokenIndex 0 3); (2, mkTokenIndex 0 5)] []) /\
  (let (_, st) := set_rates (fun l => l) example_chain [1; 2] [of_Z 105; of_Z 150]
                    [of_Z 100; of_Z 99] (mkSt [(1, mkTokenIndex 0 3); (2, mkTokenIndex 0 5)] []) in
   token_indices_cache st = [(1, mkTokenIndex 0 3); (2, mkTokenIndex 0 5)] /\
   exists evs, trace st = [] ++ evs /\ Forall (fun e => is_index_read e = false) evs).
Proof.
  assert (Hc : forall t, In t [1; 2] ->
     dict_get [(1, mkTokenIndex 0 3); (2, mkTokenIndex 0 5)] t <> None).
  { intros t [<- | [<- | []]]; discriminate. }
  split; [exact Hc|].
  exact (set_rates_cached_indices (fun l => l) example_chain (fun _ => None) [1; 2]
           [of_Z 105; of_Z 150] [of_Z 100; of_Z 99] _ [] Hc).
Defined.

(** ** When [build_compact_price] raises *)

Lemma set_item_len14 (l : list Z) (i v : Z) :
  length l = 14%nat ->
  match set_item l i v with
  | None => i < -14 \/ 14 <= i
  | Some l' => -14 <= i < 14 /\ length l' = 14%nat
  end.
Proof.
  intros Hl. unfold set_item. rewrite Hl. simpl.
  destruct (i <? 0) eqn:E1; [apply Z.ltb_lt in E1 | apply Z.ltb_ge in E1];
    destruct (_ && _) eqn:E2; try (apply andb_true_iff in E2 as [E2 E3]);
    try (apply andb_false_iff in E2 as [E2 | E2]);
    rewrite ?Z.leb_le, ?Z.ltb_lt, ?Z.leb_gt, ?Z.ltb_ge in *;
    rewrite ?replace_nth_length, ?Hl; lia.
Qed.



(** ** [set_rates] on an empty token list *)

(** X10: with no token, [set_rates] reads nothing but the block number and
    still submits one transaction, an empty [setCompactData], whatever the
    rate lists hold. *)
Theorem set_rates_empty {Hex : Type} (hexlify : list Z -> Hex) (chain : Chain Hex)
    (buy_rates sell_rates : list float) (c : dict Z TokenIndex) (tr : list (Event Hex)) :
  set_rates hexlify chain [] buy_rates sell_rates (mkSt c tr) =
  match blockNumber chain with
  | Some block =>
      (call_contract_func chain (setCompactData [] [] block []),
       mkSt c (tr ++ [ReadBlockNumber; Submit (setCompactData [] [] block [])]))
  | None => (None, mkSt c (tr ++ [ReadBlockNumber]))
  end.
Proof.
  cbv [set_rates index_tokens executor_map zip3 run_all all_some build_compact_price
       group_prices read_block_number submit bind emit lift ret raise].
  simpl. destruct (blockNumber chain) as [block|]; simpl;
    [destruct (call_contract_func chain _)|]; rewrite <- ?app_assoc; reflexivity.
Qed.

(** ** [set_compact_data] and [add_new_token] *)

(** X12: when no price of a [set_rates] call has [base_changed], the call
    ends exactly as the public [set_compact_data] does on the batch that
    [build_compact_price] returns: one block-number read, then one
    [setCompactData] with that batch. *)
Theorem set_rates_compact_path {Hex : Type} (hexlify : list Z -> Hex) (chain : Chain Hex)
    (ts : list address) (bs ss : list float) (s s1 s2 : St Hex)
    (tis : dict Z TokenIndex) (prices : list Price)
    (compact_buys compact_sells : list Hex) (indices : list Z) :
  index_tokens chain ts [] s = (Some tis, s1) ->
  executor_map (fun p => let '(t, b, sr) := p in build_price chain t b sr)
    (zip3 ts bs ss) s1 = (Some prices, s2) ->
  existsb base_changed prices = false ->
  build_compact_price hexlify prices tis = Some (compact_buys, compact_sells, indices) ->
  set_rates hexlify chain ts bs ss s = set_compact_data chain compact_buys compact_sells indices s2.
Proof.
  intros E1 E2 Hb E3. unfold set_rates.
  rewrite (bind_Some _ _ _ _ _ E1), (bind_Some _ _ _ _ _ E2). cbv zeta.
  unfold bind at 1. unfold lift at 1. rewrite E3. simpl.
  apply filter_nil_existsb in Hb. rewrite Hb. reflexivity.
Qed.

Lemma set_rates_compact_path_witness :
  let s1 := mkSt [(1, mkTokenIndex 0 3); (2, mkTokenIndex 0 5)]
              [ReadCompactData 1; ReadCompactData 2] in
  let s2 := mkSt [(1, mkTokenIndex 0 3); (2, mkTokenIndex 0 5)]
              [ReadCompactData 1; ReadCompactData 2; ReadBasicRate 1 true;
               ReadBasicRate 1 false; ReadBasicRate 2 true; ReadBasicRate 2 false] in
  let tis := [(1, mkTokenIndex 0 3); (2, mkTokenIndex 0 5)] in
  let prices := [mkPrice 1 (of_Z 100) (of_Z 100) 50 246 false;
                 mkPrice 2 (of_Z 100) (of_Z 100) 10 0 false] in
  let compact_buys := [[0; 0; 0; 50; 0; 10; 0; 0; 0; 0; 0; 0; 0; 0]] in
  let compact_sells := [[0; 0; 0; 246; 0; 0; 0; 0; 0; 0; 0; 0; 0; 0]] in
  (index_tokens example_chain [1; 2] [] (mkSt [] []) = (Some tis, s1) /\
   executor_map (fun p => let '(t, b, sr) := p in build_price example_chain t b sr)
     (zip3 [1; 2] [of_Z 105; of_Z 101] [of_Z 99; of_Z 100]) s1 = (Some prices, s2) /\
   existsb base_changed prices = false /\
   build_compact_price (fun l => l) prices tis = Some (compact_buys, compact_sells, [0])) /\
  set_rates (fun l => l) example_chain [1; 2] [of_Z 105; of_Z 101] [of_Z 99; of_Z 100]
    (mkSt [] [])
  = set_compact_data example_chain compact_buys compact_sells [0] s2.
Proof.
  intros s1 s2 tis prices compact_buys compact_sells.
  assert (E1 : index_tokens example_chain [1; 2] [] (mkSt [] []) = (Some tis, s1))
    by (vm_compute; reflexivity).
  assert (E2 : executor_map (fun p => let '(t, b, sr) := p in build_price example_chain t b sr)
     (zip3 [1; 2] [of_Z 105; of_Z 101] [of_Z 99; of_Z 100]) s1 = (Some prices, s2))
    by (vm_compute; reflexivity).
  assert (E3 : existsb base_changed prices = false) by reflexivity.
  assert (E4 : build_compact_price (fun l => l) prices tis
               = Some (compact_buys, compact_sells, [0])) by (vm_compute; reflexivity).
  split; [split; [exact E1 | split; [exact E2 | split; [exact E3 | exact E4]]]|].
  exact (set_rates_compact_path (fun l => l) example_chain [1; 2] [of_Z 105; of_Z 101]
           [of_Z 99; of_Z 100] (mkSt [] []) s1 s2 tis prices compact_buys compact_sells [0]
           E1 E2 E3 E4).
Defined.

(** X13: [add_new_token] is not atomic.  It sends [addToken],
    [setTokenControlInfo] and [enableTokenTrade] for the token, in this
    order, and stops at the first one that raises: a failed
    [setTokenControlInfo] leaves the token added but neither configured
    nor enabled.  The transaction hashes are discarded. *)
Theorem add_new_token_sequence (call_contract_func : PricingTx -> option Z) (t : address)
    (minimal_record_resolution max_per_block_imbalance max_total_imbalance : Z)
    (sent : list PricingTx) :
  let calls := [addToken t;
                setTokenControlInfo t minimal_record_resolution max_per_block_imbalance
                  max_total_imbalance;
                enableTokenTrade t] in
  let (r, sent') := add_new_token call_contract_func t minimal_record_resolution
                      max_per_block_imbalance max_total_imbalance sent in
  (call_contract_func (addToken t) = None /\ r = None /\ sent' = sent ++ firstn 1 calls) \/
  (call_contract_func (addToken t) <> None /\
   call_contract_func (setTokenControlInfo t minimal_record_resolution
                         max_per_block_imbalance max_total_imbalance) = None /\
   r = None /\ sent' = sent ++ firstn 2 calls) \/
  (call_contract_func (addToken t) <> None /\
   call_contract_func (setTokenControlInfo t minimal_record_resolution
                         max_per_block_imbalance max_total_imbalance) <> None /\
   sent' = sent ++ calls /\
   (r = Some tt <-> call_contract_func (enableTokenTrade t) <> None)).
Proof.
  cbv zeta. unfold add_new_token, add_token, set_token_control_info, enable_token_trade,
    sender_bind, send.
  destruct (call_contract_func (addToken t)) as [h1|] eqn:E1; simpl.
  2: { left. auto. }
  destruct (call_contract_func (setTokenControlInfo _ _ _ _)) as [h2|] eqn:E2; simpl.
  2: { right. left. rewrite <- app_assoc. repeat split; congruence. }
  destruct (call_contract_func (enableTokenTrade t)) as [h3|] eqn:E3; simpl;
    right; right; rewrite <- !app_assoc; simpl;
    repeat split; congruence.
Qed.

(** ** Negative field indices *)

Lemma dict_get_map_values (F : TokenIndex -> TokenIndex) (d : dict Z TokenIndex) (k : Z) :
  dict_get (map (fun kv => (fst kv, F (snd kv))) d) k = option_map F (dict_get d k).
Proof.
  induction d as [|[k0 v0] d IH]; [reflexivity|]. simpl.
  destruct (k0 =? k); [reflexivity | exact IH].
Qed.

Lemma set_item_norm_field (l : list Z) (f v : Z) :
  length l = 14%nat -> set_item l (norm_field f) v = set_item l f v.
Proof.
  intros Hl. unfold norm_field.
  destruct ((-14 <=? f) && (f <? 0)) eqn:E; [|reflexivity].
  apply andb_true_iff in E as [E1 E2]. apply Z.leb_le in E1. apply Z.ltb_lt in E2.
  unfold set_item. rewrite Hl. simpl.
  replace (f + 14 <? 0) with false by (symmetry; apply Z.ltb_ge; lia).
  replace (f <? 0) with true by (symmetry; apply Z.ltb_lt; lia).
  reflexivity.
Qed.

Lemma group_prices_normalize (token_indices : dict Z TokenIndex) (ps : list Price)
    (result : dict Z (list Z * list Z)) :
  (forall k b s, dict_get result k = Some (b, s) -> length b = 14%nat /\ length s = 14%nat) ->
  group_prices (normalize_indices token_indices) result ps = group_prices token_indices result ps.
Proof.
  revert result. induction ps as [|p ps IH]; intros result Hr; [reflexivity|].
  simpl. unfold normalize_indices.
  rewrite (dict_get_map_values
             (fun ti => mkTokenIndex (array_idx ti) (norm_field (field_idx ti)))).
  destruct (dict_get token_indices (token p)) as [ti|] eqn:Et; [|reflexivity]. simpl.
  set (k := array_idx ti).
  set (result1 := if dict_mem result k then result else dict_set result k (zeros14, zeros14)).
  assert (Hr1 : forall k' b s, dict_get result1 k' = Some (b, s) ->
                length b = 14%nat /\ length s = 14%nat).
  { unfold result1. destruct (dict_mem result k); [exact Hr|].
    intros k' b s. rewrite dict_get_set. destruct (k =? k'); [|apply Hr].
    intros H. injection H as <- <-. split; reflexivity. }
  destruct (dict_get result1 k) as [[b s]|] eqn:Hk; [|reflexivity].
  destruct (Hr1 _ _ _ Hk) as [Hb Hs].
  rewrite (set_item_norm_field b), (set_item_norm_field s) by assumption.
  pose proof (set_item_len14 b (field_idx ti) (compact_buy p) Hb) as Sb.
  pose proof (set_item_len14 s (field_idx ti) (compact_sell p) Hs) as Ss.
  destruct (set_item b (field_idx ti) (compact_buy p)) as [b'|]; [|reflexivity].
  destruct (set_item s (field_idx ti) (compact_sell p)) as [s'|]; [|reflexivity].
  apply IH. intros k' b0 s0. rewrite dict_get_set. destruct (k =? k'); [|apply Hr1].
  intros H. injection H as <- <-. split; tauto.
Qed.

(** X14: a field index [f] in [-14..-1] addresses slot [f + 14] of the
    14-slot arrays, as Python's negative list indices do: replacing every
    such index by [f + 14] leaves the result of [build_compact_price]
    unchanged. *)
Theorem build_compact_price_negative_field {Hex : Type} (hexlify : list Z -> Hex)
    (prices : list Price) (token_indices : dict Z TokenIndex) :
  build_compact_price hexlify prices (normalize_indices token_indices)
  = build_compact_price hexlify prices token_indices.
Proof.
  unfold build_compact_price. rewrite group_prices_normalize; [reflexivity|].
  intros k b s H. discriminate.
Qed.

(** ** The cache after a raising [set_rates] *)

Section CachesReads.

Context {Hex : Type} (chain : Chain Hex).

Lemma caches_reads_of_keeps_cache {A} (m : M Hex A) : keeps_cache m -> caches_reads chain m.
Proof.
  intros K s. specialize (K s). destruct (m s) as [r s']. destruct K as [C [evs [T F]]].
  split; [rewrite C; auto|]. exists evs. split; [exact T|].
  intros t a f Hin. rewrite Forall_forall in F. specialize (F _ Hin). discriminate.
Qed.

Lemma caches_reads_bind {A B} (m : M Hex A) (f : A -> M Hex B) :
  caches_reads chain m -> (forall a, caches_reads chain (f a)) -> caches_reads chain (bind m f).
Proof.
  intros Hm Hf s. unfold bind. specialize (Hm s). destruct (m s) as [[a|] s1]; [|exact Hm].
  destruct Hm as [G1 [evs1 [T1 R1]]]. specialize (Hf a s1). destruct (f a s1) as [r s2].
  destruct Hf as [G2 [evs2 [T2 R2]]]. split; [auto|].
  exists (evs1 ++ evs2). rewrite T2, T1, app_assoc. split; [reflexivity|].
  intros t a' f' Hin Hg. apply in_app_iff in Hin as [Hin | Hin]; [apply G2; exact (R1 t a' f' Hin Hg)|].
  exact (R2 t a' f' Hin Hg).
Qed.

Lemma caches_reads_get_token_indices (t : address) : caches_reads chain (get_token_indices chain t).
Proof.
  intros s. destruct (get_token_indices chain t s) as [r s'] eqn:E.
  apply get_token_indices_step in E
    as [[ti [Ec [_ ->]]] | [Ec [[a [f [G [_ ->]]]] | [G [_ ->]]]]].
  - split; [auto|]. exists []. rewrite app_nil_r. split; [reflexivity | intros ? ? ? []].
  - split.
    + intros u tu Hu. simpl. rewrite dict_get_set.
      destruct (t =? u) eqn:Eu; [apply Z.eqb_eq in Eu; subst; congruence | exact Hu].
    + exists [ReadCompactData t]. split; [reflexivity|].
      intros u a' f' [Hu | []] Hg. injection Hu as <-. rewrite G in Hg. injection Hg as <- <-.
      simpl. rewrite dict_get_set, Z.eqb_refl. reflexivity.
  - split; [auto|]. exists [ReadCompactData t]. split; [reflexivity|].
    intros u a' f' [Hu | []] Hg. injection Hu as <-. congruence.
Qed.

Lemma caches_reads_index_tokens (ts : list address) (d : dict Z TokenIndex) :
  caches_reads chain (index_tokens chain ts d).
Proof.
  revert d. induction ts as [|t ts IH]; intros d; simpl.
  - apply caches_reads_of_keeps_cache, keeps_cache_ret.
  - apply caches_reads_bind; [apply caches_reads_get_token_indices | intros ti; apply IH].
Qed.

End CachesReads.

(** X15: a [set_rates] call never loses a cache entry, and every token
    whose index it read successfully stays cached with the chain's answer,
    also when the call raises afterwards (a failing base-rate read,
    compaction or submission): a retry does not read those indices again. *)
Theorem set_rates_caches_indices {Hex : Type} (hexlify : list Z -> Hex) (chain : Chain Hex)
    (ts : list address) (bs ss : list float) (s : St Hex) :
  let (_, st) := set_rates hexlify chain ts bs ss s in
  (forall t ti, dict_get (token_indices_cache s) t = Some ti ->
                dict_get (token_indices_cache st) t = Some ti) /\
  exists evs, trace st = trace s ++ evs /\
    forall t a f, In (ReadCompactData t) evs -> getCompactData chain t = Some (a, f) ->
      dict_get (token_indices_cache st) t = Some (mkTokenIndex a f).
Proof.
  unfold set_rates. revert s. apply caches_reads_bind; [apply caches_reads_index_tokens|].
  intros tis. apply caches_reads_of_keeps_cache.
  apply keeps_cache_bind;
    [apply keeps_cache_executor_map; intros [[t b] s]; apply keeps_cache_build_price|].
  intros prices. cbv zeta. apply keeps_cache_bind; [apply keeps_cache_lift|].
  intros [[cb cs] idx].
  destruct (map token (filter base_changed prices));
    (apply keeps_cache_bind; [apply keeps_cache_read_block_number | intros; apply keeps_cache_submit]).
Qed.
